(** * cheby: a Chebyshev/Lucas-style primality tester behind an expression evaluator

    Shallow embedding of [app.py] and the properties of its core:
    the restricted expression evaluator ([parse_int_expr]), the quadratic
    ring elements ([QuadraticFieldElement]), the 2x2 matrix engine
    ([mat_mul], [mat_pow]) and the primality test ([oddprime], [myisprime],
    [is_prime]).

    Conventions of the model:
    - Python integers are [Z]; [%] and [//] are [Z.modulo] and [Z.div],
      which round like Python's, and raise [ZeroDivisionError] on a zero
      divisor;
    - Python exceptions are values of [exn], carried by the [outcome] monad
      in the order in which the interpreter evaluates sub-expressions;
    - the two loops of the program ([while True] in [oddprime],
      [while e > 0] in [mat_pow]) run on fuel, and [OutOfFuel] is the
      outcome of a run that has not ended;
    - what the program imports is a parameter: the host parser [ast.parse],
      sympy's [kronecker_symbol] and [nextprime], the C library's [pow] and
      the interpreter's arithmetic on floats;
    - limits on resources (recursion depth, memory) are not modelled. *)

From Stdlib Require Import ZArith Lia List Ascii String Bool Floats.
Import ListNotations.
Local Open Scope Z_scope.

(* ================================================================== *)
(** * Outcomes: values, raised exceptions, exhausted fuel              *)
(* ================================================================== *)

(** What a [ValueError] of the program says: "Input cannot be empty.",
    "Non-integer literal ...", "Operator ... not supported", "Unary op ...
    not supported", "Unsupported AST node ..." (the last one is never
    reached, see [_evaluate]). *)
Inductive value_error : Type :=
| InputCannotBeEmpty
| NonIntegerLiteral
| OperatorNotSupported
| UnaryOpNotSupported
| UnsupportedASTNode.

(** The Python exceptions that the modelled code can raise. *)
Inductive exn : Type :=
| ValueError (msg : value_error)
| ZeroDivisionError
| OverflowError
| TypeError
| AttributeError
| AssertionError
| SyntaxError
| HostError (name : string).

Inductive outcome (A : Type) : Type :=
| Ok (a : A)
| Raise (e : exn)
| OutOfFuel.
Arguments Ok {A} a.
Arguments Raise {A} e.
Arguments OutOfFuel {A}.

Definition bind {A B : Type} (m : outcome A) (k : A -> outcome B) : outcome B :=
  match m with
  | Ok a => k a
  | Raise e => Raise e
  | OutOfFuel => OutOfFuel
  end.

Declare Scope outcome_scope.
Delimit Scope outcome_scope with outcome.
Notation "x <- m ;; k" := (bind m (fun x => k))
  (at level 61, m at next level, right associativity) : outcome_scope.
Local Open Scope outcome_scope.

(* ================================================================== *)
(** * The expression evaluator                                         *)
(* ================================================================== *)

(** ** The host syntax tree *)

(** The payload of an [ast.Constant]. *)
Inductive constant : Type :=
| CInt (z : Z)
| CBool (b : bool)
| CFloat (f : float)
| CComplex (imag : float)
| CStr (s : string)
| CBytes (s : string)
| CNone
| CEllipsis.

(** The binary and unary operator classes of the [ast] module. *)
Inductive operator : Type :=
| Add | Sub | Mult | MatMult | Div | Mod | Pow
| LShift | RShift | BitOr | BitXor | BitAnd | FloorDiv.

Inductive unaryop : Type :=
| Invert | Not | UAdd | USub.

(** The nodes that [ast.parse(..., mode='eval')] can return: the four kinds
    the evaluator knows and the rest of the expression grammar. *)
#[warnings="-register-all"]
Inductive AST : Type :=
| Expression (body : AST)
| Constant (value : constant)
| BinOp (left : AST) (op : operator) (right : AST)
| UnaryOp (op : unaryop) (operand : AST)
| Name (id : string)
| Attribute (value : AST) (attr : string)
| Call (func : AST) (args : list AST)
| Subscript (value : AST) (slice : AST)
| Compare (left : AST) (comparators : list AST)
| ListComp (elt : AST) (target : AST) (iter : AST)
| Lambda (body : AST)
| OtherNode (kind : string) (children : list AST).

(** ** Python numbers *)

(** What the operator functions can return: an [int], and, once a negative
    exponent has been met, a [float] or a [complex]. *)
Inductive value : Type :=
| VInt (z : Z)
| VFloat (f : float)
| VComplex (re im : float).

(** [float(z)]: round to nearest even, [OverflowError] beyond the range. *)
Definition float_of_int (z : Z) : outcome float :=
  let f := SF2Prim (SpecFloat.binary_normalize 53 1024 z 0 false) in
  if PrimFloat.is_infinity f then Raise OverflowError else Ok f.

Section Host.

(** The C library's [pow], and the interpreter's arithmetic on operands of
    which one at least is not an [int]: both are taken as they are. *)
Variable libm_pow : float -> float -> float.
Variable float_arith : operator -> value -> value -> outcome value.
Variable float_unary : unaryop -> value -> outcome value.

(** [int.__pow__] with a negative exponent hands both operands, converted,
    to [float.__pow__]; these are its cases for a non-zero integral exponent. *)
Definition int_pow_negative (x y : Z) : outcome value :=
  fx <- float_of_int x ;;
  fy <- float_of_int y ;;
  if x =? 0 then Raise ZeroDivisionError
  else
    let negate_result := (x <? 0) && Z.odd y && (Z.abs y <? 2 ^ 53) in
    let iv := PrimFloat.abs fx in
    let ix := if PrimFloat.eqb iv 1 then 1%float else libm_pow iv fy in
    Ok (VFloat (if negate_result then PrimFloat.opp ix else ix)).

(** The functions of the [operator] module that the tables refer to. *)
Definition operator_add (a b : value) : outcome value :=
  match a, b with
  | VInt x, VInt y => Ok (VInt (x + y))
  | _, _ => float_arith Add a b
  end.

Definition operator_sub (a b : value) : outcome value :=
  match a, b with
  | VInt x, VInt y => Ok (VInt (x - y))
  | _, _ => float_arith Sub a b
  end.

Definition operator_mul (a b : value) : outcome value :=
  match a, b with
  | VInt x, VInt y => Ok (VInt (x * y))
  | _, _ => float_arith Mult a b
  end.

Definition operator_floordiv (a b : value) : outcome value :=
  match a, b with
  | VInt x, VInt y => if y =? 0 then Raise ZeroDivisionError else Ok (VInt (x / y))
  | _, _ => float_arith FloorDiv a b
  end.

Definition operator_mod (a b : value) : outcome value :=
  match a, b with
  | VInt x, VInt y => if y =? 0 then Raise ZeroDivisionError else Ok (VInt (x mod y))
  | _, _ => float_arith Mod a b
  end.

Definition operator_pow (a b : value) : outcome value :=
  match a, b with
  | VInt x, VInt y => if y <? 0 then int_pow_negative x y else Ok (VInt (x ^ y))
  | _, _ => float_arith Pow a b
  end.

Definition operator_pos (a : value) : outcome value :=
  match a with
  | VInt x => Ok (VInt x)
  | _ => float_unary UAdd a
  end.

Definition operator_neg (a : value) : outcome value :=
  match a with
  | VInt x => Ok (VInt (- x))
  | _ => float_unary USub a
  end.

(** The two dictionaries; [None] stands for a missing key. *)
Definition _binops (op : operator) : option (value -> value -> outcome value) :=
  match op with
  | Add => Some operator_add
  | Sub => Some operator_sub
  | Mult => Some operator_mul
  | Div => Some operator_floordiv
  | FloorDiv => Some operator_floordiv
  | Mod => Some operator_mod
  | Pow => Some operator_pow
  | _ => None
  end.

Definition _unops (op : unaryop) : option (value -> outcome value) :=
  match op with
  | UAdd => Some operator_pos
  | USub => Some operator_neg
  | _ => None
  end.

(** The inner function of [parse_int_expr].  A [bool] literal passes
    [isinstance(node.value, int)] and counts as the integer it is.  A node of
    any other class falls through to [isinstance(node, ast.Paren)]: the [ast]
    module has no such attribute, and the lookup raises [AttributeError]
    before the final [raise ValueError] can be reached.

    The function is the evaluator on an unbounded call stack.  The
    interpreter's recursion limit is not part of it: on a tree nested deeper
    than the limit allows, the source raises [RecursionError] where this
    function goes on.  A value that the source returns is the value given
    here; the theorems speak of the values returned, of the errors of the
    evaluator's own code, and of what is never returned or raised. *)
Fixpoint _evaluate (node : AST) : outcome value :=
  match node with
  | Expression body => _evaluate body
  | Constant (CInt z) => Ok (VInt z)
  | Constant (CBool b) => Ok (VInt (Z.b2z b))
  | Constant _ => Raise (ValueError NonIntegerLiteral)
  | BinOp lhs op rhs =>
      match _binops op with
      | None => Raise (ValueError OperatorNotSupported)
      | Some f =>
          left <- _evaluate lhs ;;
          right <- _evaluate rhs ;;
          f left right
      end
  | UnaryOp op operand =>
      match _unops op with
      | None => Raise (ValueError UnaryOpNotSupported)
      | Some f =>
          x <- _evaluate operand ;;
          f x
      end
  | _ => Raise AttributeError
  end.

(** [expr.replace('^', '**')] *)
Fixpoint replace_caret (expr : string) : string :=
  match expr with
  | EmptyString => EmptyString
  | String ch rest =>
      if Ascii.eqb ch "^"%char
      then String "*"%char (String "*"%char (replace_caret rest))
      else String ch (replace_caret rest)
  end.

(** The host parser, [ast.parse(expr, mode='eval')]. *)
Variable ast_parse : string -> outcome AST.

Definition parse_int_expr (expr : string) : outcome value :=
  let expr := replace_caret expr in
  node <- ast_parse expr ;;
  _evaluate node.

(** The first two statements of the [try] block of [index]: the number that
    the request handler goes on to test. *)
Definition index_number (expression : string) : outcome value :=
  if String.eqb expression EmptyString then Raise (ValueError InputCannotBeEmpty)
  else parse_int_expr expression.

End Host.

(** ** The whitelist *)




(** [q] is the floor of the rational [x / y]. *)
Definition floor_of (x y q : Z) : Prop :=
  (0 < y -> y * q <= x < y * (q + 1)) /\
  (y < 0 -> y * (q + 1) < x <= y * q).

(** ** An instance of the host parameters *)

(** Floating-point arithmetic left out: enough for the runs that stay
    within the integers. *)
Definition integers_only_pow (x y : float) : float := nan.

Definition integers_only_arith (op : operator) (a b : value) : outcome value :=
  Raise (HostError "float arithmetic is not part of this instance").

Definition integers_only_unary (op : unaryop) (a : value) : outcome value :=
  Raise (HostError "float arithmetic is not part of this instance").

(** The trees that [ast.parse(text, mode='eval')] returns on some sample
    texts; any other text is refused by this excerpt. *)
Definition sample_trees : list (string * AST) :=
  [ ("5+3", Expression (BinOp (Constant (CInt 5)) Add (Constant (CInt 3))));
    ("(5*6)-1",
     Expression (BinOp (BinOp (Constant (CInt 5)) Mult (Constant (CInt 6))) Sub
                       (Constant (CInt 1))));
    ("2**10", Expression (BinOp (Constant (CInt 2)) Pow (Constant (CInt 10))));
    ("7//2", Expression (BinOp (Constant (CInt 7)) FloorDiv (Constant (CInt 2))));
    ("7/2", Expression (BinOp (Constant (CInt 7)) Div (Constant (CInt 2))));
    ("-7/2", Expression (BinOp (UnaryOp USub (Constant (CInt 7))) Div (Constant (CInt 2))));
    ("-(-5)", Expression (UnaryOp USub (UnaryOp USub (Constant (CInt 5)))));
    ("1/0", Expression (BinOp (Constant (CInt 1)) Div (Constant (CInt 0))));
    ("1%0", Expression (BinOp (Constant (CInt 1)) Mod (Constant (CInt 0))));
    ("2**-1",
     Expression (BinOp (Constant (CInt 2)) Pow (UnaryOp USub (Constant (CInt 1)))));
    ("__import__('os')",
     Expression (Call (Name "__import__") [Constant (CStr "os")]));
    ("1.5+2", Expression (BinOp (Constant (CFloat 1.5)) Add (Constant (CInt 2))));
    ("(1//0)+x",
     Expression (BinOp (BinOp (Constant (CInt 1)) FloorDiv (Constant (CInt 0))) Add
                       (Name "x")));
    ("True", Expression (Constant (CBool true))) ]%string.

Fixpoint lookup_tree (table : list (string * AST)) (text : string) : outcome AST :=
  match table with
  | [] => Raise SyntaxError
  | (key, tree) :: rest => if String.eqb key text then Ok tree else lookup_tree rest text
  end.

Definition sample_parse (text : string) : outcome AST :=
  lookup_tree sample_trees text.

(** [parse_int_expr] and the handler's front end on this instance. *)
Definition sample_parse_int_expr : string -> outcome value :=
  parse_int_expr integers_only_pow integers_only_arith integers_only_unary sample_parse.

Definition sample_index_number : string -> outcome value :=
  index_number integers_only_pow integers_only_arith integers_only_unary sample_parse.

(* ================================================================== *)
(** * Ring elements: plain integers and quadratic field elements       *)
(* ================================================================== *)

(** The attributes of a [QuadraticFieldElement] object: [u + v*sqrt(c) mod n]. *)
Record qfe : Type := mkQFE { qu : Z; qv : Z; qc : Z; qn : Z }.

(** The objects that flow through the matrix engine: a Python [int] or an
    instance of the class. *)
Inductive elem : Type :=
| Int (z : Z)
| Field (q : qfe).

Module QuadraticFieldElement.

(** [__init__]: [u % n] raises [ZeroDivisionError] when [n] is zero. *)
Definition __init__ (u v c n : Z) : outcome qfe :=
  if n =? 0 then Raise ZeroDivisionError
  else Ok (mkQFE (u mod n) (v mod n) c n).

(** [if not isinstance(other, QuadraticFieldElement): other = QuadraticFieldElement(other, 0, self.c, self.n)] *)
Definition coerce (self : qfe) (other : elem) : outcome qfe :=
  match other with
  | Field o => Ok o
  | Int k => __init__ k 0 (qc self) (qn self)
  end.

Definition __add__ (self : qfe) (other : elem) : outcome qfe :=
  o <- coerce self other ;;
  if (qc self =? qc o) && (qn self =? qn o)
  then __init__ (qu self + qu o) (qv self + qv o) (qc self) (qn self)
  else Raise AssertionError.

Definition __neg__ (self : qfe) : outcome qfe :=
  __init__ (- qu self) (- qv self) (qc self) (qn self).

Definition __sub__ (self : qfe) (other : elem) : outcome qfe :=
  o <- coerce self other ;;
  m <- __neg__ o ;;
  __add__ self (Field m).

Definition __mul__ (self : qfe) (other : elem) : outcome qfe :=
  o <- coerce self other ;;
  if (qc self =? qc o) && (qn self =? qn o)
  then
    (if qn self =? 0 then Raise ZeroDivisionError
     else
       let u := (qu self * qu o + qv self * qv o * qc self) mod qn self in
       let v := (qu self * qv o + qv self * qu o) mod qn self in
       __init__ u v (qc self) (qn self))
  else Raise AssertionError.

Definition __rmul__ (self : qfe) (scalar : Z) : outcome qfe :=
  __init__ (qu self * scalar) (qv self * scalar) (qc self) (qn self).

Definition __eq__ (self : qfe) (other : elem) : bool :=
  match other with
  | Field o =>
      (qu self =? qu o) && (qv self =? qv o) && (qc self =? qc o) && (qn self =? qn o)
  | Int _ => false
  end.

End QuadraticFieldElement.

(** Python's binary operators on these objects, with the dispatch of the
    data model: [int.__add__] gives up on a field element and the class has
    no [__radd__] nor [__rsub__], so [int + field] and [int - field] raise
    [TypeError]; [int * field] falls back on [__rmul__]. *)
Definition py_add (a b : elem) : outcome elem :=
  match a, b with
  | Int x, Int y => Ok (Int (x + y))
  | Int _, Field _ => Raise TypeError
  | Field q, _ => r <- QuadraticFieldElement.__add__ q b ;; Ok (Field r)
  end.

Definition py_sub (a b : elem) : outcome elem :=
  match a, b with
  | Int x, Int y => Ok (Int (x - y))
  | Int _, Field _ => Raise TypeError
  | Field q, _ => r <- QuadraticFieldElement.__sub__ q b ;; Ok (Field r)
  end.

Definition py_neg (a : elem) : outcome elem :=
  match a with
  | Int x => Ok (Int (- x))
  | Field q => r <- QuadraticFieldElement.__neg__ q ;; Ok (Field r)
  end.

Definition py_mul (a b : elem) : outcome elem :=
  match a, b with
  | Int x, Int y => Ok (Int (x * y))
  | Int x, Field q => r <- QuadraticFieldElement.__rmul__ q x ;; Ok (Field r)
  | Field q, _ => r <- QuadraticFieldElement.__mul__ q b ;; Ok (Field r)
  end.

(** [a == b]: an [int] on the left defers to the reflected [__eq__]. *)
Definition py_eq (a b : elem) : bool :=
  match a, b with
  | Int x, Int y => x =? y
  | Int _, Field q => QuadraticFieldElement.__eq__ q a
  | Field q, _ => QuadraticFieldElement.__eq__ q b
  end.

Definition sqrtc (c n : Z) : outcome elem :=
  r <- QuadraticFieldElement.__init__ 0 1 c n ;; Ok (Field r).

(* ================================================================== *)
(** * The matrix engine                                                *)
(* ================================================================== *)

(** [[a, b], [c, d]] and [[x, y]]. *)
Definition matrix : Type := (elem * elem) * (elem * elem).
Definition vector : Type := elem * elem.

(** [k if not isinstance(a, QuadraticFieldElement) else QuadraticFieldElement(k, 0, a.c, a.n)] *)
Definition const_like (a : elem) (k : Z) : outcome elem :=
  match a with
  | Int _ => Ok (Int k)
  | Field q => r <- QuadraticFieldElement.__init__ k 0 (qc q) (qn q) ;; Ok (Field r)
  end.

Definition xmat (n : Z) (a : elem) : outcome matrix :=
  two_a <- py_add a a ;;
  neg1 <- const_like a (-1) ;;
  one <- const_like a 1 ;;
  zero <- const_like a 0 ;;
  Ok ((two_a, neg1), (one, zero)).

(** [x*y + z*w], evaluated left to right. *)
Definition dot2 (x y z w : elem) : outcome elem :=
  p <- py_mul x y ;;
  q <- py_mul z w ;;
  py_add p q.

(** [mat_mul], branch [isinstance(B[0], list)]: matrix times matrix. *)
Definition mat_mul (A B : matrix) : outcome matrix :=
  let '((a00, a01), (a10, a11)) := A in
  let '((b00, b01), (b10, b11)) := B in
  r00 <- dot2 a00 b00 a01 b10 ;;
  r01 <- dot2 a00 b01 a01 b11 ;;
  r10 <- dot2 a10 b00 a11 b10 ;;
  r11 <- dot2 a10 b01 a11 b11 ;;
  Ok ((r00, r01), (r10, r11)).

(** [mat_mul], last line: matrix times vector. *)
Definition mat_mul_vec (A : matrix) (B : vector) : outcome vector :=
  let '((a00, a01), (a10, a11)) := A in
  let '(b0, b1) := B in
  r0 <- dot2 a00 b0 a01 b1 ;;
  r1 <- dot2 a10 b0 a11 b1 ;;
  Ok (r0, r1).

(** The first four lines of [mat_pow]: the accumulator's start value, chosen
    by looking at [M[0][0]]. *)
Definition mat_pow_init (M : matrix) : outcome matrix :=
  match fst (fst M) with
  | Field q =>
      one <- QuadraticFieldElement.__init__ 1 0 (qc q) (qn q) ;;
      zero <- QuadraticFieldElement.__init__ 0 0 (qc q) (qn q) ;;
      Ok ((Field one, Field zero), (Field zero, Field one))
  | Int _ => Ok ((Int 1, Int 0), (Int 0, Int 1))
  end.

(** [while e > 0: ...], one unit of fuel per iteration. *)
Fixpoint mat_pow_loop (fuel : nat) (base result : matrix) (e : Z) : outcome matrix :=
  if 0 <? e then
    match fuel with
    | O => OutOfFuel
    | S fuel' =>
        result' <- (if Z.land e 1 =? 0 then Ok result else mat_mul base result) ;;
        base' <- mat_mul base base ;;
        mat_pow_loop fuel' base' result' (Z.shiftr e 1)
    end
  else Ok result.

(** The loop halves [e], so the bit length of [e] is fuel enough. *)
Definition bit_length (e : Z) : nat := S (Z.to_nat (Z.log2 e)).

Definition mat_pow (M : matrix) (exponent : Z) : outcome matrix :=
  result <- mat_pow_init M ;;
  mat_pow_loop (bit_length exponent) M result exponent.

(* ================================================================== *)
(** * The primality test                                               *)
(* ================================================================== *)

(** [sympy.ntheory.primetest.is_square]: whether [n] is a perfect square. *)
Definition is_square (n : Z) : bool :=
  (0 <=? n) && (Z.sqrt n * Z.sqrt n =? n).

Section Sympy.

(** The two number-theoretic functions imported from sympy are parameters
    of the model: [kronecker_symbol a n] is the Kronecker symbol [(a | n)],
    [nextprime p] the least prime above [p]. *)
Variable kronecker_symbol : Z -> Z -> Z.
Variable nextprime : Z -> Z.

(** [while True: ...] of [oddprime], one unit of fuel per iteration. *)
Fixpoint oddprime_loop (fuel : nat) (p n : Z) : outcome Z :=
  match fuel with
  | O => OutOfFuel
  | S fuel' =>
      if kronecker_symbol p n =? -1 then Ok p
      else oddprime_loop fuel' (nextprime p) n
  end.

Definition oddprime (fuel : nat) (n : Z) : outcome Z :=
  oddprime_loop fuel 3 n.

Definition myisprime (fuel : nat) (n : Z) (a : elem) : outcome bool :=
  M <- xmat n a ;;
  Mn <- mat_pow M n ;;
  one <- const_like a 1 ;;
  xp <- mat_mul_vec Mn (a, one) ;;
  c <- match a with
       | Field q => Ok (qc q)
       | Int _ => oddprime fuel n
       end ;;
  target <- QuadraticFieldElement.__init__ 1 (-1) c n ;;
  Ok (py_eq (snd xp) (Field target)).

Definition is_prime (fuel : nat) (n : Z) : outcome bool :=
  if n <? 2 then Ok false
  else if n =? 2 then Ok true
  else if n mod 2 =? 0 then Ok false
  else if is_square n then Ok false
  else
    c <- oddprime fuel n ;;
    a <- QuadraticFieldElement.__init__ 1 1 c n ;;
    myisprime fuel n (Field a).

End Sympy.

(* ================================================================== *)
(** * Shapes of matrices                                               *)
(* ================================================================== *)

(** A field element with parameters [(c, n)]. *)
Definition in_field (c n : Z) (x : elem) : Prop :=
  match x with
  | Field q => qc q = c /\ qn q = n
  | Int _ => False
  end.

Definition is_int (x : elem) : Prop :=
  match x with
  | Int _ => True
  | Field _ => False
  end.

Definition all_entries (P : elem -> Prop) (M : matrix) : Prop :=
  P (fst (fst M)) /\ P (snd (fst M)) /\ P (fst (snd M)) /\ P (snd (snd M)).

(** Both components in [[0, n)]. *)
Definition reduced (q : qfe) : Prop :=
  0 <= qu q < qn q /\ 0 <= qv q < qn q.

(** What the constructor leaves: both components are their own residues. *)
Definition canonical (x : elem) : Prop :=
  match x with
  | Int _ => True
  | Field q => qn q <> 0 /\ qu q mod qn q = qu q /\ qv q mod qn q = qv q
  end.

(** An operand that [self] accepts without tripping its assertion. *)
Definition compatible (self : qfe) (other : elem) : Prop :=
  match other with
  | Int _ => True
  | Field o => qc o = qc self /\ qn o = qn self
  end.

Definition int_identity : matrix := ((Int 1, Int 0), (Int 0, Int 1)).

Definition field_one (c n : Z) : elem := Field (mkQFE (1 mod n) 0 c n).
Definition field_zero (c n : Z) : elem := Field (mkQFE 0 0 c n).

Definition field_identity (c n : Z) : matrix :=
  ((field_one c n, field_zero c n), (field_zero c n, field_one c n)).

(* ================================================================== *)
(** * Reference definitions                                            *)
(* ================================================================== *)

(** ** The ring a matrix is over, and the power by its definition *)

(** The type and parameters of a ring of elements: plain integers, or
    field elements with constant [c] and modulus [n]. *)
Inductive ring_params : Type :=
| ScalarRing
| FieldRing (c n : Z).

Definition ring_const (P : ring_params) (k : Z) : outcome elem :=
  match P with
  | ScalarRing => Ok (Int k)
  | FieldRing c n => r <- QuadraticFieldElement.__init__ k 0 c n ;; Ok (Field r)
  end.

(** [[1, 0], [0, 1]] built from the parameters alone. *)
Definition identity_matrix (P : ring_params) : outcome matrix :=
  one <- ring_const P 1 ;;
  zero <- ring_const P 0 ;;
  Ok ((one, zero), (zero, one)).

(** [M^k]: the identity multiplied [k] times by [M]. *)
Fixpoint matrix_power (P : ring_params) (M : matrix) (k : nat) : outcome matrix :=
  match k with
  | O => identity_matrix P
  | S k' => R <- matrix_power P M k' ;; mat_mul M R
  end.

(** An element of the ring in the wide sense: in a field ring a plain
    integer counts too, since the arithmetic lifts it to [(k, 0)]. *)
Definition ring_element (P : ring_params) (x : elem) : Prop :=
  match P, x with
  | ScalarRing, Int _ => True
  | ScalarRing, Field _ => False
  | FieldRing _ _, Int _ => True
  | FieldRing c n, Field q => qc q = c /\ qn q = n
  end.

(** A matrix whose four entries have one concrete type and parameters. *)
Definition uniform (P : ring_params) (M : matrix) : Prop :=
  match P with
  | ScalarRing => all_entries is_int M
  | FieldRing c n => n <> 0 /\ all_entries (in_field c n) M
  end.

(** The type and parameters that an element carries. *)
Definition ring_of (x : elem) : ring_params :=
  match x with
  | Int _ => ScalarRing
  | Field q => FieldRing (qc q) (qn q)
  end.

(** ** Sample matrices *)

(** The companion matrix of [a = 1 + sqrt 3 (mod 7)]. *)
Definition companion_3_7 : matrix :=
  ((Field (mkQFE 2 2 3 7), Field (mkQFE 6 0 3 7)),
   (Field (mkQFE 1 0 3 7), Field (mkQFE 0 0 3 7))).

(** A matrix over the same field whose first entry is left as the plain
    integer [2]. *)
Definition mixed_3_7 : matrix :=
  ((Int 2, Field (mkQFE 6 0 3 7)),
   (Field (mkQFE 1 0 3 7), Field (mkQFE 0 0 3 7))).

(** ** Exact arithmetic *)

(** [k]-fold product in any structure with a multiplication and a unit. *)
Fixpoint power {X : Type} (mul : X -> X -> X) (one : X) (A : X) (k : nat) : X :=
  match k with
  | O => one
  | S k' => mul A (power mul one A k')
  end.

(** [u + v*sqrt(c)] over the integers, without reduction. *)
Definition padd (x y : Z * Z) : Z * Z :=
  (fst x + fst y, snd x + snd y).

Definition pmul (c : Z) (x y : Z * Z) : Z * Z :=
  (fst x * fst y + snd x * snd y * c, fst x * snd y + snd x * fst y).

Definition pdot (c : Z) (x y z w : Z * Z) : Z * Z :=
  padd (pmul c x y) (pmul c z w).

Definition pmat : Type := ((Z * Z) * (Z * Z)) * ((Z * Z) * (Z * Z)).
Definition pvec : Type := (Z * Z) * (Z * Z).

Definition pmm (c : Z) (A B : pmat) : pmat :=
  let '((a00, a01), (a10, a11)) := A in
  let '((b00, b01), (b10, b11)) := B in
  ((pdot c a00 b00 a01 b10, pdot c a00 b01 a01 b11),
   (pdot c a10 b00 a11 b10, pdot c a10 b01 a11 b11)).

Definition pmv (c : Z) (A : pmat) (B : pvec) : pvec :=
  let '((a00, a01), (a10, a11)) := A in
  let '(b0, b1) := B in
  (pdot c a00 b0 a01 b1, pdot c a10 b0 a11 b1).

Definition pid : pmat := (((1, 0), (0, 0)), ((0, 0), (1, 0))).

(** The field element with these components as they are, and reduced. *)
Definition raw (c n : Z) (x : Z * Z) : elem :=
  Field (mkQFE (fst x) (snd x) c n).

Definition red (c n : Z) (x : Z * Z) : elem :=
  Field (mkQFE (fst x mod n) (snd x mod n) c n).

Definition map4 {X Y : Type} (f : X -> Y) (A : (X * X) * (X * X)) : (Y * Y) * (Y * Y) :=
  let '((a00, a01), (a10, a11)) := A in
  ((f a00, f a01), (f a10, f a11)).

Definition map2 {X Y : Type} (f : X -> Y) (B : X * X) : Y * Y :=
  (f (fst B), f (snd B)).

(** The components of an element, read as an exact pair. *)
Definition coords (x : elem) : Z * Z :=
  match x with
  | Int k => (k, 0)
  | Field q => (qu q, qv q)
  end.

(** Matrices of plain integers. *)
Definition imat : Type := (Z * Z) * (Z * Z).

Definition imm (A B : imat) : imat :=
  let '((a00, a01), (a10, a11)) := A in
  let '((b00, b01), (b10, b11)) := B in
  ((a00 * b00 + a01 * b10, a00 * b01 + a01 * b11),
   (a10 * b00 + a11 * b10, a10 * b01 + a11 * b11)).

Definition imv (A : imat) (B : Z * Z) : Z * Z :=
  let '((a00, a01), (a10, a11)) := A in
  let '(b0, b1) := B in
  (a00 * b0 + a01 * b1, a10 * b0 + a11 * b1).

Definition iid : imat := ((1, 0), (0, 1)).

(** The scalar [k] re-expressed as the field element [(k, 0)]:
    what [QuadraticFieldElement(k, 0, c, n)] builds. *)
Definition lift (c n : Z) (k : Z) : elem :=
  Field (mkQFE (k mod n) 0 c n).

(** Congruence of exact pairs modulo [n]. *)
Definition peq (n : Z) (x y : Z * Z) : Prop :=
  eqm n (fst x) (fst y) /\ eqm n (snd x) (snd y).

Definition modp (n : Z) (x : Z * Z) : Z * Z := (fst x mod n, snd x mod n).

(** The exact companion matrix of [a = 1 + sqrt c]. *)
Definition companion_exact : pmat :=
  (((2, 2), (-1, 0)), ((1, 0), (0, 0))).

(** ** The primality test as the specification words it *)

Module Spec.

(** A field element [u + v*sqrt(c) (mod n)] is the pair [(u, v)]. *)
Definition elt : Type := Z * Z.

Definition of_int (n k : Z) : elt := (k mod n, 0).

Definition add (n : Z) (x y : elt) : elt :=
  ((fst x + fst y) mod n, (snd x + snd y) mod n).

Definition scale (n k : Z) (x : elt) : elt :=
  ((k * fst x) mod n, (k * snd x) mod n).

(** [(u1 + v1 sqrt c)(u2 + v2 sqrt c) = (u1 u2 + v1 v2 c) + (u1 v2 + v1 u2) sqrt c] *)
Definition mul (c n : Z) (x y : elt) : elt :=
  ((fst x * fst y + snd x * snd y * c) mod n, (fst x * snd y + snd x * fst y) mod n).

Definition eqb (x y : elt) : bool :=
  (fst x =? fst y) && (snd x =? snd y).

Definition mat : Type := (elt * elt) * (elt * elt).

Definition mmul (c n : Z) (A B : mat) : mat :=
  let '((a00, a01), (a10, a11)) := A in
  let '((b00, b01), (b10, b11)) := B in
  ((add n (mul c n a00 b00) (mul c n a01 b10), add n (mul c n a00 b01) (mul c n a01 b11)),
   (add n (mul c n a10 b00) (mul c n a11 b10), add n (mul c n a10 b01) (mul c n a11 b11))).

Definition mvec (c n : Z) (A : mat) (B : elt * elt) : elt * elt :=
  let '((a00, a01), (a10, a11)) := A in
  let '(b0, b1) := B in
  (add n (mul c n a00 b0) (mul c n a01 b1), add n (mul c n a10 b0) (mul c n a11 b1)).

Definition identity (n : Z) : mat :=
  ((of_int n 1, of_int n 0), (of_int n 0, of_int n 1)).

(** [M^k] *)
Definition mpow (c n : Z) (M : mat) (k : nat) : mat :=
  power (mmul c n) (identity n) M k.

(** [M(a) = [[2a, -1], [1, 0]]] *)
Definition companion (n : Z) (a : elt) : mat :=
  ((scale n 2 a, of_int n (-1)), (of_int n 1, of_int n 0)).

(** Steps 3 to 7 of the algorithm: with [a = 1 + sqrt c], whether the
    second component of [M(a)^n . (a, 1)] is [1 - sqrt c]. *)
Definition lucas_test (n c : Z) : bool :=
  let a : elt := (1 mod n, 1 mod n) in
  let Mn := mpow c n (companion n a) (Z.to_nat n) in
  let xp := mvec c n Mn (a, of_int n 1) in
  eqb (snd xp) (1 mod n, (-1) mod n).

End Spec.

(** ** An instance of the number-theoretic parameters *)

(** The Jacobi symbol [(a | n)] for odd positive [n], where the Kronecker
    symbol coincides with it, by the binary algorithm. *)
Fixpoint jacobi_loop (fuel : nat) (a n t : Z) : Z :=
  match fuel with
  | O => 0
  | S fuel' =>
      if a =? 0 then (if n =? 1 then t else 0)
      else if Z.even a then
        jacobi_loop fuel' (a / 2) n
          (if (n mod 8 =? 3) || (n mod 8 =? 5) then - t else t)
      else
        jacobi_loop fuel' (n mod a) a
          (if (a mod 4 =? 3) && (n mod 4 =? 3) then - t else t)
  end.

Definition jacobi_symbol (a n : Z) : Z :=
  jacobi_loop (Z.to_nat (2 * Z.log2 n + 4)) (a mod n) n 1.

(** Primality by trial division, and the first prime above [p] found by
    counting upwards (at most [p] steps, and [2] below [2]). *)
Fixpoint no_divisor_from (fuel : nat) (d p : Z) : bool :=
  match fuel with
  | O => true
  | S fuel' =>
      if p <=? d then true
      else if p mod d =? 0 then false
      else no_divisor_from fuel' (d + 1) p
  end.

Definition trial_prime (p : Z) : bool :=
  (2 <=? p) && no_divisor_from (Z.to_nat p) 2 p.

Fixpoint first_prime_from (fuel : nat) (k : Z) : Z :=
  match fuel with
  | O => k
  | S fuel' => if trial_prime k then k else first_prime_from fuel' (k + 1)
  end.

Definition next_prime (p : Z) : Z :=
  first_prime_from (Z.to_nat (Z.max p 2)) (Z.max (p + 1) 2).

(** [q] is the least prime above [p]. *)
Definition least_prime_above (p q : Z) : Prop :=
  Z.prime q /\ p < q /\ forall r, Z.prime r -> p < r -> q <= r.

(** ** Further reference definitions *)

Definition pneg (x : Z * Z) : Z * Z := (- fst x, - snd x).

Definition psub (x y : Z * Z) : Z * Z := (fst x - fst y, snd x - snd y).

(** The exact matrix [[2a, -1], [1, 0]]. *)
Definition companion_of (a : Z * Z) : pmat :=
  ((padd a a, (-1, 0)), ((1, 0), (0, 0))).

(** The sequence [x0 = 1], [x1 = a], [x(k+2) = 2 a x(k+1) - x(k)] in
    exact arithmetic, as the pair [(x(k+1), x(k))]: the Chebyshev
    polynomials of the first kind at [a]. *)
Fixpoint chebyshev_pair (c : Z) (a : Z * Z) (k : nat) : pvec :=
  match k with
  | O => (a, (1, 0))
  | S k' =>
      let '(x1, x0) := chebyshev_pair c a k' in
      (psub (pmul c (padd a a) x1) x0, x1)
  end.

Definition chebyshev (c : Z) (a : Z * Z) (k : nat) : Z * Z :=
  snd (chebyshev_pair c a k).

(** A vector whose two entries have one concrete type and parameters. *)
Definition uniform_vec (P : ring_params) (V : vector) : Prop :=
  match P with
  | ScalarRing => is_int (fst V) /\ is_int (snd V)
  | FieldRing c n => n <> 0 /\ in_field c n (fst V) /\ in_field c n (snd V)
  end.

(** A field element of parameters [(c, n)] with both components in [[0, n)]. *)
Definition reduced_in (c n : Z) (x : elem) : Prop :=
  match x with
  | Field q => qc q = c /\ qn q = n /\ reduced q
  | Int _ => False
  end.

(** A tree in which [**] does not occur. *)
Fixpoint pow_free (node : AST) : bool :=
  match node with
  | Expression body => pow_free body
  | BinOp lhs op rhs =>
      match op with
      | Pow => false
      | _ => pow_free lhs && pow_free rhs
      end
  | UnaryOp _ operand => pow_free operand
  | _ => true
  end.

(** The exceptions that the evaluator raises on its own account. *)
Definition evaluator_error (e : exn) : Prop :=
  e = ZeroDivisionError \/ e = AttributeError \/
  e = ValueError NonIntegerLiteral \/ e = ValueError OperatorNotSupported \/
  e = ValueError UnaryOpNotSupported.


(* ================================================================== *)
(** * Properties of the ring elements                                  *)
(* ================================================================== *)

Import QuadraticFieldElement.

Lemma bind_ok {A B : Type} (m : outcome A) (k : A -> outcome B) (b : B) :
  (x <- m ;; k x) = Ok b -> exists a, m = Ok a /\ k a = Ok b.
Proof.
  destruct m as [a | e | ]; simpl; intros H; try discriminate.
  exists a; split; [reflexivity | assumption].
Qed.

Lemma init_ok (u v c n : Z) :
  n <> 0 -> __init__ u v c n = Ok (mkQFE (u mod n) (v mod n) c n).
Proof.
  intros Hn. unfold __init__.
  destruct (Z.eqb_spec n 0) as [E | _]; [contradiction | reflexivity].
Qed.

Lemma init_inv (u v c n : Z) (r : qfe) :
  __init__ u v c n = Ok r ->
  n <> 0 /\ r = mkQFE (u mod n) (v mod n) c n.
Proof.
  unfold __init__. destruct (Z.eqb_spec n 0) as [E | NE]; intros H.
  - discriminate.
  - inversion H; subst; auto.
Qed.

Lemma init_reduced (u v c n : Z) (r : qfe) :
  0 < n -> __init__ u v c n = Ok r -> reduced r /\ qc r = c /\ qn r = n.
Proof.
  intros Hn H. apply init_inv in H. destruct H as [_ ->].
  unfold reduced; simpl.
  pose proof (Z.mod_pos_bound u n Hn). pose proof (Z.mod_pos_bound v n Hn).
  repeat split; lia.
Qed.

Lemma coerce_compatible (self : qfe) (other : elem) :
  qn self <> 0 -> compatible self other ->
  exists o, coerce self other = Ok o /\ qc o = qc self /\ qn o = qn self.
Proof.
  intros Hn Hc. destruct other as [k | o]; simpl in *.
  - rewrite init_ok by assumption. eexists; split; [reflexivity | simpl; auto].
  - exists o. tauto.
Qed.

Lemma add_inv (self : qfe) (other : elem) (r : qfe) :
  __add__ self other = Ok r ->
  exists o, coerce self other = Ok o /\
            r = mkQFE ((qu self + qu o) mod qn self) ((qv self + qv o) mod qn self)
                      (qc self) (qn self) /\ qn self <> 0.
Proof.
  unfold __add__. intros H. apply bind_ok in H. destruct H as (o & Ho & H).
  exists o. split; [assumption |].
  destruct ((qc self =? qc o) && (qn self =? qn o)); [| discriminate].
  apply init_inv in H. tauto.
Qed.

Lemma mul_inv (self : qfe) (other : elem) (r : qfe) :
  __mul__ self other = Ok r ->
  exists u v, r = mkQFE (u mod qn self) (v mod qn self) (qc self) (qn self) /\ qn self <> 0.
Proof.
  unfold __mul__. intros H. apply bind_ok in H. destruct H as (o & Ho & H).
  destruct ((qc self =? qc o) && (qn self =? qn o)); [| discriminate].
  destruct (qn self =? 0); [discriminate |].
  apply init_inv in H. destruct H as [Hn ->]. eauto.
Qed.

Lemma mk_reduced (u v c n : Z) : 0 < n -> reduced (mkQFE (u mod n) (v mod n) c n).
Proof.
  intros Hn. unfold reduced; simpl.
  pose proof (Z.mod_pos_bound u n Hn). pose proof (Z.mod_pos_bound v n Hn). lia.
Qed.

(** C8. With a positive modulus, the constructor and each of [__add__],
    [__sub__], [__neg__], [__mul__] (and [__rmul__]) return an element whose
    [u] and [v] lie in [[0, n)], whatever the components of the operands
    were; and on an operand with the same [c] and [n] (or a plain integer)
    each of them does return an element. *)
Theorem qfe_components_reduced (self : qfe) (other : elem) (scalar : Z) :
  0 < qn self ->
  (forall u v c n, 0 < n ->
     exists r, __init__ u v c n = Ok r /\ reduced r /\ qc r = c /\ qn r = n) /\
  (forall r, __add__ self other = Ok r -> reduced r /\ qn r = qn self) /\
  (forall r, __sub__ self other = Ok r -> reduced r /\ qn r = qn self) /\
  (forall r, __neg__ self = Ok r -> reduced r /\ qn r = qn self) /\
  (forall r, __mul__ self other = Ok r -> reduced r /\ qn r = qn self) /\
  (forall r, __rmul__ self scalar = Ok r -> reduced r /\ qn r = qn self) /\
  (compatible self other ->
     exists a s m, __add__ self other = Ok a /\ __sub__ self other = Ok s /\
                   __mul__ self other = Ok m) /\
  (exists g t, __neg__ self = Ok g /\ __rmul__ self scalar = Ok t).
Proof.
  intros Hn.
  assert (Hn0 : qn self <> 0) by lia.
  repeat apply conj.
  - intros u v c n Hpos. rewrite init_ok by lia.
    eexists; split; [reflexivity |]. split; [apply mk_reduced; assumption | auto].
  - intros r H. apply add_inv in H. destruct H as (o & _ & -> & _).
    split; [apply mk_reduced; assumption | reflexivity].
  - intros r H. unfold __sub__ in H.
    apply bind_ok in H. destruct H as (o & _ & H).
    apply bind_ok in H. destruct H as (m & _ & H).
    apply add_inv in H. destruct H as (o' & _ & -> & _).
    split; [apply mk_reduced; assumption | reflexivity].
  - intros r H. apply (init_reduced _ _ _ _ _ Hn) in H. tauto.
  - intros r H. apply mul_inv in H. destruct H as (u & v & -> & _).
    split; [apply mk_reduced; assumption | reflexivity].
  - intros r H. apply (init_reduced _ _ _ _ _ Hn) in H. tauto.
  - intros Hc. destruct (coerce_compatible self other Hn0 Hc) as (o & Ho & Hoc & Hon).
    assert (Hon0 : qn o <> 0) by congruence.
    assert (Hsame : (qc self =? qc o) && (qn self =? qn o) = true).
    { rewrite Hoc, Hon, !Z.eqb_refl. reflexivity. }
    do 3 eexists. repeat apply conj.
    + unfold __add__. rewrite Ho. simpl. rewrite Hsame. apply init_ok; assumption.
    + unfold __sub__, __neg__. rewrite Ho. simpl. rewrite (init_ok _ _ _ _ Hon0). simpl.
      unfold __add__. simpl. rewrite Hoc, Hon, !Z.eqb_refl. simpl.
      apply init_ok; assumption.
    + unfold __mul__. rewrite Ho. simpl. rewrite Hsame.
      destruct (Z.eqb_spec (qn self) 0) as [E | _]; [contradiction |].
      apply init_ok; assumption.
  - unfold __neg__, __rmul__. rewrite !init_ok by assumption.
    do 2 eexists. split; reflexivity.
Qed.

Lemma qfe_components_reduced_witness :
  0 < 7 /\ reduced (mkQFE 0 3 3 7) /\ reduced (mkQFE 5 1 3 7).
Proof.
  assert (H : 0 < qn (mkQFE 1 1 3 7)) by (simpl; lia).
  destruct (qfe_components_reduced (mkQFE 1 1 3 7) (Field (mkQFE 6 2 3 7)) 5 H)
    as (_ & Hadd & _ & _ & Hmul & _).
  split; [lia |]. split.
  - apply (Hadd (mkQFE 0 3 3 7)). reflexivity.
  - apply (Hmul (mkQFE 5 1 3 7)). reflexivity.
Defined.

(* ================================================================== *)
(** * Powers in a monoid                                               *)
(* ================================================================== *)

Section Monoid.

Context {X : Type} (mul : X -> X -> X) (one : X).
Hypothesis mul_assoc : forall a b c, mul a (mul b c) = mul (mul a b) c.
Hypothesis mul_one_l : forall a, mul one a = a.
Hypothesis mul_one_r : forall a, mul a one = a.

Lemma power_add (A : X) (j k : nat) :
  power mul one A (j + k) = mul (power mul one A j) (power mul one A k).
Proof.
  induction j as [| j IH]; simpl.
  - symmetry. apply mul_one_l.
  - rewrite IH. apply mul_assoc.
Qed.

Lemma power_shift (A : X) (k : nat) :
  mul (power mul one A k) A = power mul one A (S k).
Proof.
  replace (S k) with (k + 1)%nat by lia.
  rewrite power_add. simpl. rewrite mul_one_r. reflexivity.
Qed.

Lemma power_square (A : X) (k : nat) :
  power mul one (mul A A) k = power mul one A (2 * k).
Proof.
  induction k as [| k IH]; simpl; [reflexivity |].
  rewrite IH. replace (k + S (k + 0))%nat with (S (2 * k)) by lia.
  simpl. rewrite mul_assoc. reflexivity.
Qed.

(** The pure content of the loop of [mat_pow]: the binary method started
    from [(base, result)] multiplies [result] by [base^e] on the left. *)
Lemma binary_step (B R : X) (e : Z) :
  0 < e ->
  mul (power mul one (mul B B) (Z.to_nat (Z.shiftr e 1)))
      (if Z.land e 1 =? 0 then R else mul B R)
  = mul (power mul one B (Z.to_nat e)) R.
Proof.
  intros He.
  rewrite Z.shiftr_div_pow2 by lia. change (2 ^ 1) with 2.
  pose proof (Z.land_ones e 1 ltac:(lia)) as HL.
  change (Z.ones 1) with 1 in HL. change (2 ^ 1) with 2 in HL. rewrite HL.
  rewrite power_square.
  pose proof (Z.div_mod e 2 ltac:(lia)) as Hdm.
  pose proof (Z.mod_pos_bound e 2 ltac:(lia)) as Hb.
  assert (Hq : 0 <= e / 2) by (apply Z.div_pos; lia).
  destruct (Z.eqb_spec (e mod 2) 0) as [E | NE].
  - replace (Z.to_nat e) with (2 * Z.to_nat (e / 2))%nat by lia. reflexivity.
  - replace (Z.to_nat e) with (S (2 * Z.to_nat (e / 2))) by lia.
    rewrite mul_assoc, power_shift. reflexivity.
Qed.

End Monoid.

(* ================================================================== *)
(** * The matrix engine computes powers                                *)
(* ================================================================== *)

Lemma bit_length_enough (e : Z) : e < 2 ^ Z.of_nat (bit_length e).
Proof.
  unfold bit_length. destruct (Z.le_gt_cases e 0) as [H | H].
  - pose proof (Z.pow_pos_nonneg 2 (Z.of_nat (S (Z.to_nat (Z.log2 e))))). lia.
  - pose proof (Z.log2_spec e H) as [_ Hlt].
    pose proof (Z.log2_nonneg e).
    rewrite Nat2Z.inj_succ, Z2Nat.id by assumption. exact Hlt.
Qed.

Section Simulation.

(** A monoid [X] of exact matrices and its image [can] among the matrices
    of the program, on which [mat_mul] acts as the exact product does. *)
Context {X : Type} (mul : X -> X -> X) (one : X) (can : X -> matrix).
Hypothesis mul_assoc : forall a b c, mul a (mul b c) = mul (mul a b) c.
Hypothesis mul_one_l : forall a, mul one a = a.
Hypothesis mul_one_r : forall a, mul a one = a.
Hypothesis can_mul : forall A B, mat_mul (can A) (can B) = Ok (can (mul A B)).

Lemma mat_pow_loop_correct (fuel : nat) :
  forall (B R : X) (e : Z),
    e < 2 ^ Z.of_nat fuel ->
    mat_pow_loop fuel (can B) (can R) e
    = Ok (can (mul (power mul one B (Z.to_nat e)) R)).
Proof.
  induction fuel as [| fuel IH]; intros B R e Hfuel.
  - change (2 ^ Z.of_nat 0) with 1 in Hfuel.
    simpl. destruct (Z.ltb_spec 0 e) as [H | H]; [lia |].
    replace (Z.to_nat e) with O by lia. simpl. rewrite mul_one_l. reflexivity.
  - simpl. destruct (Z.ltb_spec 0 e) as [He | He].
    + assert (Hres : (if Z.land e 1 =? 0 then Ok (can R) else mat_mul (can B) (can R))
                     = Ok (can (if Z.land e 1 =? 0 then R else mul B R))).
      { destruct (Z.land e 1 =? 0); [reflexivity | apply can_mul]. }
      rewrite Hres, can_mul. simpl.
      rewrite IH.
      * rewrite (binary_step mul one mul_assoc mul_one_l mul_one_r B R e He).
        reflexivity.
      * rewrite Z.shiftr_div_pow2 by lia. change (2 ^ 1) with 2.
        rewrite Nat2Z.inj_succ, Z.pow_succ_r in Hfuel by lia.
        apply Z.div_lt_upper_bound; lia.
    + replace (Z.to_nat e) with O by lia. simpl. rewrite mul_one_l. reflexivity.
Qed.

(** From the identity, the loop returns the power. *)
Lemma mat_pow_loop_power (M : X) (e : Z) :
  mat_pow_loop (bit_length e) (can M) (can one) e
  = Ok (can (power mul one M (Z.to_nat e))).
Proof.
  rewrite mat_pow_loop_correct by apply bit_length_enough.
  rewrite mul_one_r. reflexivity.
Qed.

(** So does the definition of the power, unfolded with [mat_mul]. *)
Lemma matrix_power_exact (P : ring_params) (M : X) (k : nat) :
  identity_matrix P = Ok (can one) ->
  matrix_power P (can M) k = Ok (can (power mul one M k)).
Proof.
  intros Hid. induction k as [| k IH]; simpl.
  - exact Hid.
  - rewrite IH. simpl. apply can_mul.
Qed.

End Simulation.

(** Equalities of tuples, component by component. *)
Ltac split_pairs :=
  repeat match goal with
         | |- (_, _) = (_, _) => apply f_equal2
         end.

(** ** Matrices of plain integers *)

Lemma imm_assoc (A B C : imat) : imm A (imm B C) = imm (imm A B) C.
Proof.
  destruct A as [[a00 a01] [a10 a11]], B as [[b00 b01] [b10 b11]],
           C as [[c00 c01] [c10 c11]].
  unfold imm. split_pairs; ring.
Qed.

Lemma imm_iid_l (A : imat) : imm iid A = A.
Proof.
  destruct A as [[a00 a01] [a10 a11]]. unfold imm, iid. split_pairs; ring.
Qed.

Lemma imm_iid_r (A : imat) : imm A iid = A.
Proof.
  destruct A as [[a00 a01] [a10 a11]]. unfold imm, iid. split_pairs; ring.
Qed.

Lemma mat_mul_ints (A B : imat) :
  mat_mul (map4 Int A) (map4 Int B) = Ok (map4 Int (imm A B)).
Proof.
  destruct A as [[a00 a01] [a10 a11]], B as [[b00 b01] [b10 b11]]. reflexivity.
Qed.

Lemma mat_mul_vec_ints (A : imat) (B : Z * Z) :
  mat_mul_vec (map4 Int A) (map2 Int B) = Ok (map2 Int (imv A B)).
Proof.
  destruct A as [[a00 a01] [a10 a11]], B as [b0 b1]. reflexivity.
Qed.

Lemma ints_shape (M : matrix) :
  all_entries is_int M -> M = map4 Int (map4 (fun x => fst (coords x)) M).
Proof.
  destruct M as [[[a | a] [b | b]] [[c | c] [d | d]]];
    unfold all_entries; simpl; intros H; try tauto.
Qed.

(** ** Matrices of field elements *)

#[local] Existing Instances eqm_setoid Zplus_eqm Zmult_eqm Zminus_eqm Zopp_eqm.

Section FieldMatrices.

Variables c n : Z.
Hypothesis n_nonzero : n <> 0.

Lemma peq_refl (x : Z * Z) : peq n x x.
Proof. split; reflexivity. Qed.

Lemma peq_modp (x : Z * Z) : peq n (modp n x) x.
Proof. split; apply Zmod_eqm. Qed.

Lemma red_as_raw (x : Z * Z) : red c n x = raw c n (modp n x).
Proof. reflexivity. Qed.

Lemma red_peq (x y : Z * Z) : peq n x y -> red c n x = red c n y.
Proof.
  intros [Hu Hv]. unfold red. unfold eqm in Hu, Hv. rewrite Hu, Hv. reflexivity.
Qed.

Lemma pdot_peq (x x' y y' z z' w w' : Z * Z) :
  peq n x x' -> peq n y y' -> peq n z z' -> peq n w w' ->
  peq n (pdot c x y z w) (pdot c x' y' z' w').
Proof.
  intros [Hx1 Hx2] [Hy1 Hy2] [Hz1 Hz2] [Hw1 Hw2].
  unfold pdot, padd, pmul, peq; simpl.
  split.
  - rewrite Hx1, Hx2, Hy1, Hy2, Hz1, Hz2, Hw1, Hw2. reflexivity.
  - rewrite Hx1, Hx2, Hy1, Hy2, Hz1, Hz2, Hw1, Hw2. reflexivity.
Qed.

Lemma py_mul_raw (x y : Z * Z) :
  py_mul (raw c n x) (raw c n y) = Ok (red c n (pmul c x y)).
Proof.
  unfold py_mul, raw, __mul__. simpl. rewrite !Z.eqb_refl. simpl.
  destruct (Z.eqb_spec n 0) as [E | _]; [contradiction |].
  rewrite init_ok by assumption. simpl.
  unfold red, pmul. simpl. rewrite !Zmod_mod. reflexivity.
Qed.

Lemma py_add_raw (x y : Z * Z) :
  py_add (raw c n x) (raw c n y) = Ok (red c n (padd x y)).
Proof.
  unfold py_add, raw, __add__. simpl. rewrite !Z.eqb_refl. simpl.
  rewrite init_ok by assumption. reflexivity.
Qed.

Lemma dot2_raw (x y z w : Z * Z) :
  dot2 (raw c n x) (raw c n y) (raw c n z) (raw c n w)
  = Ok (red c n (pdot c x y z w)).
Proof.
  unfold dot2. rewrite !py_mul_raw. cbn [bind].
  rewrite !red_as_raw, py_add_raw. f_equal.
  apply red_peq. unfold pdot, padd, modp, peq; simpl.
  split; rewrite !Zmod_eqm; reflexivity.
Qed.

(** [mat_mul] on field matrices is the exact product, reduced; it only
    depends on the operands modulo [n]. *)
Lemma mat_mul_raw (A A' B B' : pmat) :
  map4 (red c n) A = map4 (red c n) A' ->
  map4 (red c n) B = map4 (red c n) B' ->
  mat_mul (map4 (raw c n) A) (map4 (raw c n) B)
  = Ok (map4 (red c n) (pmm c A' B')).
Proof.
  destruct A as [[a00 a01] [a10 a11]], B as [[b00 b01] [b10 b11]],
           A' as [[a00' a01'] [a10' a11']], B' as [[b00' b01'] [b10' b11']].
  intros HA HB. unfold map4 in HA, HB.
  assert (Hred : forall x y, red c n x = red c n y -> peq n x y).
  { intros x y H. unfold red in H. inversion H. split; assumption. }
  inversion HA as [[Ha1 Ha2 Ha3 Ha4 Ha5 Ha6 Ha7 Ha8]].
  inversion HB as [[Hb1 Hb2 Hb3 Hb4 Hb5 Hb6 Hb7 Hb8]].
  assert (P1 : peq n a00 a00') by (split; assumption).
  assert (P2 : peq n a01 a01') by (split; assumption).
  assert (P3 : peq n a10 a10') by (split; assumption).
  assert (P4 : peq n a11 a11') by (split; assumption).
  assert (Q1 : peq n b00 b00') by (split; assumption).
  assert (Q2 : peq n b01 b01') by (split; assumption).
  assert (Q3 : peq n b10 b10') by (split; assumption).
  assert (Q4 : peq n b11 b11') by (split; assumption).
  unfold mat_mul, map4. rewrite !dot2_raw. cbn [bind]. unfold pmm.
  f_equal. split_pairs; apply red_peq; apply pdot_peq; assumption.
Qed.

End FieldMatrices.

Lemma pmm_assoc (c : Z) (A B C : pmat) : pmm c A (pmm c B C) = pmm c (pmm c A B) C.
Proof.
  destruct A as [[[a1 a2] [a3 a4]] [[a5 a6] [a7 a8]]],
           B as [[[b1 b2] [b3 b4]] [[b5 b6] [b7 b8]]],
           C as [[[c1 c2] [c3 c4]] [[c5 c6] [c7 c8]]].
  unfold pmm, pdot, padd, pmul; cbn [fst snd]. split_pairs; ring.
Qed.

Lemma pmm_pid_l (c : Z) (A : pmat) : pmm c pid A = A.
Proof.
  destruct A as [[[a1 a2] [a3 a4]] [[a5 a6] [a7 a8]]].
  unfold pmm, pid, pdot, padd, pmul; cbn [fst snd]. split_pairs; ring.
Qed.

Lemma pmm_pid_r (c : Z) (A : pmat) : pmm c A pid = A.
Proof.
  destruct A as [[[a1 a2] [a3 a4]] [[a5 a6] [a7 a8]]].
  unfold pmm, pid, pdot, padd, pmul; cbn [fst snd]. split_pairs; ring.
Qed.

Lemma field_shape (c n : Z) (M : matrix) :
  all_entries (in_field c n) M -> M = map4 (raw c n) (map4 coords M).
Proof.
  destruct M as [[[a | [a1 a2 a3 a4]] [b | [b1 b2 b3 b4]]]
                 [[d | [d1 d2 d3 d4]] [e | [e1 e2 e3 e4]]]];
    unfold all_entries, in_field; simpl; intros H; try tauto.
  destruct H as ([? ?] & [? ?] & [? ?] & [? ?]). subst. reflexivity.
Qed.

Lemma field_identity_red (c n : Z) : field_identity c n = map4 (red c n) pid.
Proof. reflexivity. Qed.

Section FieldPowers.

Variables c n : Z.
Hypothesis n_nonzero : n <> 0.

Lemma red_modp (A : pmat) : map4 (red c n) (map4 (modp n) A) = map4 (red c n) A.
Proof.
  destruct A as [[a00 a01] [a10 a11]]. unfold map4.
  split_pairs; apply red_peq, peq_modp.
Qed.

Lemma red_is_raw (A : pmat) : map4 (red c n) A = map4 (raw c n) (map4 (modp n) A).
Proof. destruct A as [[a00 a01] [a10 a11]]. reflexivity. Qed.

Lemma mat_mul_red (A B : pmat) :
  mat_mul (map4 (red c n) A) (map4 (red c n) B) = Ok (map4 (red c n) (pmm c A B)).
Proof.
  rewrite (red_is_raw A), (red_is_raw B).
  apply (mat_mul_raw c n n_nonzero); apply red_modp.
Qed.

Lemma mat_mul_raw_red (A B : pmat) :
  mat_mul (map4 (raw c n) A) (map4 (red c n) B) = Ok (map4 (red c n) (pmm c A B)).
Proof.
  rewrite (red_is_raw B).
  apply (mat_mul_raw c n n_nonzero); [reflexivity | apply red_modp].
Qed.

Lemma mat_pow_init_field (A : pmat) :
  mat_pow_init (map4 (raw c n) A) = Ok (map4 (red c n) pid).
Proof.
  destruct A as [[a00 a01] [a10 a11]]. unfold mat_pow_init. simpl.
  rewrite !init_ok by assumption. reflexivity.
Qed.

Lemma identity_matrix_field :
  identity_matrix (FieldRing c n) = Ok (map4 (red c n) pid).
Proof.
  unfold identity_matrix, ring_const. rewrite !init_ok by assumption. reflexivity.
Qed.

(** The first iteration reduces the base: from then on the loop runs on
    canonical matrices. *)
Lemma mat_pow_loop_raw (fuel : nat) (A R : pmat) (e : Z) :
  mat_pow_loop fuel (map4 (raw c n) A) (map4 (red c n) R) e
  = mat_pow_loop fuel (map4 (red c n) A) (map4 (red c n) R) e.
Proof.
  destruct fuel as [| fuel]; simpl; [reflexivity |].
  destruct (0 <? e); [| reflexivity].
  rewrite mat_mul_raw_red, !mat_mul_red.
  rewrite (mat_mul_raw c n n_nonzero A A A A) by reflexivity.
  reflexivity.
Qed.

Lemma mat_pow_field (A : pmat) (e : Z) :
  mat_pow (map4 (raw c n) A) e
  = Ok (map4 (red c n) (power (pmm c) pid A (Z.to_nat e))).
Proof.
  unfold mat_pow. rewrite mat_pow_init_field. cbn [bind].
  rewrite mat_pow_loop_raw.
  apply (mat_pow_loop_power (pmm c) pid (map4 (red c n))
           (pmm_assoc c) (pmm_pid_l c) (pmm_pid_r c) mat_mul_red).
Qed.

Lemma mat_pow_red (A : pmat) (e : Z) :
  mat_pow (map4 (red c n) A) e
  = Ok (map4 (red c n) (power (pmm c) pid A (Z.to_nat e))).
Proof.
  unfold mat_pow. rewrite (red_is_raw A), mat_pow_init_field, <- (red_is_raw A).
  cbn [bind].
  apply (mat_pow_loop_power (pmm c) pid (map4 (red c n))
           (pmm_assoc c) (pmm_pid_l c) (pmm_pid_r c) mat_mul_red).
Qed.

Lemma matrix_power_field (A : pmat) (k : nat) :
  matrix_power (FieldRing c n) (map4 (raw c n) A) k
  = Ok (map4 (red c n) (power (pmm c) pid A k)).
Proof.
  induction k as [| k IH]; simpl.
  - apply identity_matrix_field.
  - rewrite IH. cbn [bind]. apply mat_mul_raw_red.
Qed.

End FieldPowers.

Lemma mat_pow_ints (A : imat) (e : Z) :
  mat_pow (map4 Int A) e = Ok (map4 Int (power imm iid A (Z.to_nat e))).
Proof.
  unfold mat_pow.
  assert (Hinit : mat_pow_init (map4 Int A) = Ok (map4 Int iid))
    by (destruct A as [[a00 a01] [a10 a11]]; reflexivity).
  rewrite Hinit. cbn [bind].
  apply (mat_pow_loop_power imm iid (map4 Int) imm_assoc imm_iid_l imm_iid_r mat_mul_ints).
Qed.

Lemma matrix_power_ints (A : imat) (k : nat) :
  matrix_power ScalarRing (map4 Int A) k = Ok (map4 Int (power imm iid A k)).
Proof.
  apply (matrix_power_exact imm iid (map4 Int) mat_mul_ints). reflexivity.
Qed.

Lemma uniform_red (c n : Z) (A : pmat) :
  n <> 0 -> uniform (FieldRing c n) (map4 (red c n) A).
Proof.
  intros Hn. destruct A as [[a00 a01] [a10 a11]].
  split; [assumption |]. unfold all_entries; simpl. tauto.
Qed.

Lemma uniform_ints (A : imat) : uniform ScalarRing (map4 Int A).
Proof.
  destruct A as [[a00 a01] [a10 a11]]. unfold uniform, all_entries; simpl. tauto.
Qed.

Lemma land_one_testbit (e : Z) : (Z.land e 1 =? 0) = negb (Z.testbit e 0).
Proof.
  pose proof (Z.land_ones e 1 ltac:(lia)) as HL.
  change (Z.ones 1) with 1 in HL. change (2 ^ 1) with 2 in HL. rewrite HL.
  rewrite <- Z.bit0_mod.
  destruct (Z.testbit e 0); reflexivity.
Qed.

(** C3 (amended). The accumulator of [mat_pow] starts from the identity
    matrix whose type and parameters are read off the entry [M[0][0]]; each
    iteration looks at the lowest bit of [e], multiplies the accumulator by
    the base when it is set, squares the base and halves [e]; and for every
    matrix whose four entries have one concrete type and parameters (all
    plain integers, or all field elements with the same [c] and the same
    non-zero [n]) and every [e >= 0], [mat_pow M e] returns [M^e]. *)
Theorem mat_pow_is_power :
  (forall M, mat_pow_init M = identity_matrix (ring_of (fst (fst M)))) /\
  (forall fuel base result e, 0 < e ->
     mat_pow_loop (S fuel) base result e
     = (result' <- (if Z.testbit e 0 then mat_mul base result else Ok result) ;;
        base' <- mat_mul base base ;;
        mat_pow_loop fuel base' result' (e / 2))) /\
  (forall P M e, uniform P M -> 0 <= e ->
     exists R, mat_pow M e = Ok R /\
               matrix_power P M (Z.to_nat e) = Ok R /\
               uniform P R).
Proof.
  repeat apply conj.
  - intros [[[k | q] m01] m1]; [reflexivity |].
    unfold mat_pow_init, identity_matrix, ring_const, __init__. simpl.
    destruct (qn q =? 0); reflexivity.
  - intros fuel base result e He. cbn [mat_pow_loop].
    destruct (Z.ltb_spec 0 e) as [_ | H]; [| lia].
    rewrite land_one_testbit, Z.shiftr_div_pow2 by lia. change (2 ^ 1) with 2.
    destruct (Z.testbit e 0); reflexivity.
  - intros [| c n] M e HM He.
    + rewrite (ints_shape M HM).
      eexists. rewrite mat_pow_ints, matrix_power_ints.
      split; [reflexivity |]. split; [reflexivity | apply uniform_ints].
    + destruct HM as [Hn HM]. rewrite (field_shape c n M HM).
      eexists. rewrite (mat_pow_field c n Hn), (matrix_power_field c n Hn).
      split; [reflexivity |]. split; [reflexivity | apply uniform_red; assumption].
Qed.

Lemma mat_pow_is_power_witness :
  uniform (FieldRing 3 7) companion_3_7 /\ 0 <= 7 /\
  exists R, mat_pow companion_3_7 7 = Ok R /\
            matrix_power (FieldRing 3 7) companion_3_7 (Z.to_nat 7) = Ok R /\
            uniform (FieldRing 3 7) R.
Proof.
  assert (HM : uniform (FieldRing 3 7) companion_3_7).
  { split; [lia |]. unfold all_entries; simpl. tauto. }
  assert (He : 0 <= 7) by lia.
  split; [exact HM |]. split; [exact He |].
  exact (proj2 (proj2 mat_pow_is_power) (FieldRing 3 7) companion_3_7 7 HM He).
Defined.

(** C3, as stated, fails: the identity is not built from the parameters
    of the ring the matrix is over, it is read off [M[0][0]].  On a matrix
    over the field [(3, 7)] whose first entry is the plain integer [2], the
    accumulator starts as the integer identity and the first product raises
    [TypeError], while the power built from the parameters is defined. *)
Lemma mat_pow_identity_counterexample :
  all_entries (ring_element (FieldRing 3 7)) mixed_3_7 /\
  mat_pow mixed_3_7 0 = Ok int_identity /\
  identity_matrix (FieldRing 3 7) = Ok (field_identity 3 7) /\
  mat_pow mixed_3_7 1 = Raise TypeError /\
  matrix_power (FieldRing 3 7) mixed_3_7 1
  = Ok ((Field (mkQFE 2 0 3 7), Field (mkQFE 6 0 3 7)),
        (Field (mkQFE 1 0 3 7), Field (mkQFE 0 0 3 7))).
Proof.
  repeat apply conj; try reflexivity; simpl; auto.
Qed.

Lemma canonical_red (c n : Z) (M : matrix) :
  all_entries (in_field c n) M -> all_entries canonical M ->
  map4 (red c n) (map4 coords M) = M.
Proof.
  destruct M as [[[a | [a1 a2 a3 a4]] [b | [b1 b2 b3 b4]]]
                 [[d | [d1 d2 d3 d4]] [e | [e1 e2 e3 e4]]]];
    unfold all_entries, in_field, canonical; simpl; intros H K; try tauto.
  destruct H as ([? ?] & [? ?] & [? ?] & [? ?]). subst.
  destruct K as ((_ & Ha & Ha') & (_ & Hb & Hb') & (_ & Hd & Hd') & (_ & He & He')).
  unfold red; simpl. rewrite Ha, Ha', Hb, Hb', Hd, Hd', He, He'. reflexivity.
Qed.

(** C10. With exponent [0] the loop body never runs, and [mat_pow]
    returns, for every matrix [M] whatsoever, the identity matrix of the
    type and parameters of the single entry [M[0][0]]: the integer identity
    if [M[0][0]] is a plain integer, the identity of field elements with the
    [(c, n)] of [M[0][0]] otherwise, whatever the values of the entries.
    When the four entries of [M] have one type and parameters, these are the
    type and parameters of [M], and the result is neutral for [mat_mul] on
    [M]. *)
Theorem mat_pow_zero_identity (M : matrix) :
  mat_pow M 0 = identity_matrix (ring_of (fst (fst M))) /\
  (forall P, uniform P M ->
     ring_of (fst (fst M)) = P /\
     exists I, mat_pow M 0 = Ok I /\ uniform P I /\ all_entries canonical I) /\
  (all_entries is_int M -> mat_pow M 0 = Ok int_identity) /\
  (forall c n, n <> 0 -> all_entries (in_field c n) M ->
     mat_pow M 0 = Ok (field_identity c n)) /\
  (all_entries is_int M ->
     mat_mul int_identity M = Ok M /\ mat_mul M int_identity = Ok M) /\
  (forall c n, n <> 0 -> all_entries (in_field c n) M -> all_entries canonical M ->
     mat_mul (field_identity c n) M = Ok M /\ mat_mul M (field_identity c n) = Ok M).
Proof.
  assert (Hint : all_entries is_int M -> mat_pow M 0 = Ok int_identity).
  { intros HM. rewrite (ints_shape M HM), mat_pow_ints. reflexivity. }
  assert (Hfield : forall c n, n <> 0 -> all_entries (in_field c n) M ->
                     mat_pow M 0 = Ok (field_identity c n)).
  { intros c n Hn HM. rewrite (field_shape c n M HM), (mat_pow_field c n Hn).
    reflexivity. }
  split; [| split; [| split; [| split; [| split]]]].
  - destruct M as [[m00 m01] [m10 m11]].
    unfold mat_pow, mat_pow_init, identity_matrix, ring_of, ring_const.
    cbn [fst snd].
    destruct m00 as [k | q]; [reflexivity |].
    unfold QuadraticFieldElement.__init__.
    destruct (qn q =? 0); reflexivity.
  - intros [| c n] HM.
    + split.
      * destruct M as [[[k | q] m01] [m10 m11]]; [reflexivity |].
        destruct HM as (H00 & _). contradiction H00.
      * exists int_identity. split; [exact (Hint HM) |].
        split; unfold uniform, all_entries, int_identity; simpl; tauto.
    + destruct HM as [Hn HM]. split.
      * destruct M as [[[k | q] m01] [m10 m11]].
        -- destruct HM as (H00 & _). contradiction H00.
        -- destruct HM as ([Hc Hq] & _). cbn [fst ring_of]. cbn [fst] in Hc, Hq.
           rewrite Hc, Hq. reflexivity.
      * exists (field_identity c n). split; [exact (Hfield c n Hn HM) |].
        split; [split; [exact Hn |] |];
          unfold all_entries, field_identity, field_one, field_zero, in_field, canonical;
          cbn [fst snd qu qv qc qn]; rewrite ?Z.mod_mod, ?Z.mod_0_l by exact Hn; tauto.
  - exact Hint.
  - exact Hfield.
  - intros HM. rewrite (ints_shape M HM).
    change int_identity with (map4 Int iid).
    rewrite !mat_mul_ints, imm_iid_l, imm_iid_r. split; reflexivity.
  - intros c n Hn HM HC.
    pose proof (canonical_red c n M HM HC) as Hcan.
    rewrite field_identity_red. rewrite <- Hcan at 1 3.
    rewrite !(mat_mul_red c n Hn), pmm_pid_l, pmm_pid_r, Hcan. split; reflexivity.
Qed.

Lemma mat_pow_zero_identity_witness :
  all_entries (in_field 3 7) companion_3_7 /\
  mat_pow companion_3_7 0 = Ok (field_identity 3 7).
Proof.
  assert (HM : all_entries (in_field 3 7) companion_3_7)
    by (unfold all_entries; simpl; tauto).
  assert (Hn : 7 <> 0) by lia.
  split; [exact HM |].
  exact (proj1 (proj2 (proj2 (proj2 (mat_pow_zero_identity companion_3_7)))) 3 7 Hn HM).
Defined.

(** C10, as stated, fails on a matrix whose entries are not of one type:
    the start value is chosen by [M[0][0]] alone.  On the matrix over the
    field [(3, 7)] whose first entry is the plain integer [2], [mat_pow]
    returns the integer identity at exponent [0]; it is not the identity
    built from the parameters of the field, and it is not neutral for
    [mat_mul] on that matrix: both products raise [TypeError], where the
    products with the field identity are defined. *)
Lemma mat_pow_zero_mixed_counterexample :
  all_entries (ring_element (FieldRing 3 7)) mixed_3_7 /\
  mat_pow mixed_3_7 0 = Ok int_identity /\
  identity_matrix (FieldRing 3 7) = Ok (field_identity 3 7) /\
  int_identity <> field_identity 3 7 /\
  mat_mul int_identity mixed_3_7 = Raise TypeError /\
  mat_mul mixed_3_7 int_identity = Raise TypeError /\
  mat_mul (field_identity 3 7) mixed_3_7
  = Ok ((Field (mkQFE 2 0 3 7), Field (mkQFE 6 0 3 7)),
        (Field (mkQFE 1 0 3 7), Field (mkQFE 0 0 3 7))).
Proof.
  split; [unfold all_entries; simpl; tauto |].
  split; [reflexivity |].
  split; [reflexivity |].
  split; [discriminate |].
  split; [reflexivity |].
  split; reflexivity.
Qed.

(* ================================================================== *)
(** * Scalars and field elements with [v = 0]                          *)
(* ================================================================== *)

(** The exact pair of a scalar. *)
Lemma lift_red (c n k : Z) : lift c n k = red c n (k, 0).
Proof. reflexivity. Qed.

Lemma lift_matrix_red (c n : Z) (A : imat) :
  map4 (lift c n) A = map4 (red c n) (map4 (fun k => (k, 0)) A).
Proof. destruct A as [[a00 a01] [a10 a11]]. reflexivity. Qed.

Lemma pmm_scalars (c : Z) (A B : imat) :
  pmm c (map4 (fun k => (k, 0)) A) (map4 (fun k => (k, 0)) B)
  = map4 (fun k => (k, 0)) (imm A B).
Proof.
  destruct A as [[a00 a01] [a10 a11]], B as [[b00 b01] [b10 b11]].
  unfold pmm, imm, map4, pdot, padd, pmul; cbn [fst snd]. split_pairs; ring.
Qed.

Lemma power_scalars (c : Z) (A : imat) (k : nat) :
  power (pmm c) pid (map4 (fun k => (k, 0)) A) k
  = map4 (fun k => (k, 0)) (power imm iid A k).
Proof.
  induction k as [| k IH]; simpl.
  - reflexivity.
  - rewrite IH. apply pmm_scalars.
Qed.

Lemma mat_mul_vec_red (c n : Z) (A : pmat) (B : pvec) :
  n <> 0 ->
  mat_mul_vec (map4 (red c n) A) (map2 (red c n) B) = Ok (map2 (red c n) (pmv c A B)).
Proof.
  intros Hn. destruct A as [[a00 a01] [a10 a11]], B as [b0 b1].
  unfold mat_mul_vec, map4, map2. cbn [fst snd].
  rewrite !red_as_raw, !(dot2_raw c n Hn). cbn [bind]. unfold pmv.
  f_equal. split_pairs; apply red_peq; apply pdot_peq; apply peq_modp.
Qed.

Lemma pmv_scalars (c : Z) (A : imat) (B : Z * Z) :
  pmv c (map4 (fun k => (k, 0)) A) (map2 (fun k => (k, 0)) B)
  = map2 (fun k => (k, 0)) (imv A B).
Proof.
  destruct A as [[a00 a01] [a10 a11]], B as [b0 b1].
  unfold pmv, imv, map4, map2, pdot, padd, pmul; cbn [fst snd]. split_pairs; ring.
Qed.

(** C6. The matrix engine gives the same numbers on plain integers and on
    their re-expression as field elements [(k, 0)]: for the product of two
    matrices, for the product of a matrix and a vector, for the power and
    for the companion matrix, the field computation returns, entry by
    entry, the lift of what the integer computation returns, that is its
    residue modulo [n] with [v = 0]. *)
Theorem scalar_field_consistency (c n : Z) (A B : imat) (V : Z * Z) (e : Z) :
  n <> 0 ->
  (forall k, const_like (lift c n 0) k = Ok (lift c n k)) /\
  (exists R, mat_mul (map4 Int A) (map4 Int B) = Ok (map4 Int R) /\
             mat_mul (map4 (lift c n) A) (map4 (lift c n) B) = Ok (map4 (lift c n) R)) /\
  (exists W, mat_mul_vec (map4 Int A) (map2 Int V) = Ok (map2 Int W) /\
             mat_mul_vec (map4 (lift c n) A) (map2 (lift c n) V) = Ok (map2 (lift c n) W)) /\
  (exists R, mat_pow (map4 Int A) e = Ok (map4 Int R) /\
             mat_pow (map4 (lift c n) A) e = Ok (map4 (lift c n) R)) /\
  (forall m k, exists R, xmat m (Int k) = Ok (map4 Int R) /\
                         xmat m (lift c n k) = Ok (map4 (lift c n) R)).
Proof.
  intros Hn.
  assert (Hconst : forall k, const_like (lift c n 0) k = Ok (lift c n k)).
  { intros k. unfold const_like, lift. simpl. rewrite init_ok by assumption. reflexivity. }
  split; [exact Hconst |]. split; [| split; [| split]].
  - exists (imm A B). split; [apply mat_mul_ints |].
    rewrite !lift_matrix_red, (mat_mul_red c n Hn), pmm_scalars. reflexivity.
  - exists (imv A V). split; [apply mat_mul_vec_ints |].
    rewrite lift_matrix_red.
    change (map2 (lift c n) V) with (map2 (red c n) (map2 (fun k => (k, 0)) V)).
    rewrite (mat_mul_vec_red c n _ _ Hn), pmv_scalars. reflexivity.
  - exists (power imm iid A (Z.to_nat e)). split; [apply mat_pow_ints |].
    rewrite !lift_matrix_red, (mat_pow_red c n Hn), power_scalars. reflexivity.
  - intros m k. exists ((k + k, -1), (1, 0)). split; [reflexivity |].
    unfold xmat.
    change (const_like (lift c n k)) with (const_like (lift c n 0)).
    rewrite !Hconst.
    rewrite lift_red, red_as_raw, (py_add_raw c n Hn). cbn [bind].
    unfold map4. f_equal. split_pairs; try reflexivity.
    rewrite lift_red. apply red_peq. unfold padd, modp, peq; cbn [fst snd].
    split; rewrite !Zmod_eqm; reflexivity.
Qed.

Lemma scalar_field_consistency_witness :
  7 <> 0 /\
  exists R, mat_pow (map4 Int ((2, -1), (1, 0))) 5 = Ok (map4 Int R) /\
            mat_pow (map4 (lift 3 7) ((2, -1), (1, 0))) 5 = Ok (map4 (lift 3 7) R).
Proof.
  assert (Hn : 7 <> 0) by lia.
  split; [exact Hn |].
  exact (proj1 (proj2 (proj2 (proj2 (scalar_field_consistency 3 7 ((2, -1), (1, 0))
                                       ((1, 0), (0, 1)) (1, 1) 5 Hn))))).
Defined.

(* ================================================================== *)
(** * The primality test                                               *)
(* ================================================================== *)

Lemma is_square_spec (n : Z) : is_square n = true <-> exists k, n = k * k.
Proof.
  unfold is_square. rewrite andb_true_iff, Z.leb_le, Z.eqb_eq. split.
  - intros [_ H]. exists (Z.sqrt n). symmetry. exact H.
  - intros [k ->]. split; [nia |].
    replace (k * k) with (Z.abs k * Z.abs k) by nia.
    rewrite Z.sqrt_square by lia. reflexivity.
Qed.

Section SpecFacts.

Variables c n : Z.

Lemma modp_peq (x y : Z * Z) : peq n x y -> modp n x = modp n y.
Proof.
  intros [Hu Hv]. unfold modp. unfold eqm in Hu, Hv. rewrite Hu, Hv. reflexivity.
Qed.

Lemma spec_dot (x y z w : Z * Z) :
  Spec.add n (Spec.mul c n (modp n x) (modp n y)) (Spec.mul c n (modp n z) (modp n w))
  = modp n (pdot c x y z w).
Proof.
  change (modp n (padd (modp n (pmul c (modp n x) (modp n y)))
                       (modp n (pmul c (modp n z) (modp n w))))
          = modp n (pdot c x y z w)).
  apply modp_peq. unfold pdot, padd, pmul, modp, peq; cbn [fst snd].
  split; rewrite !Zmod_eqm; reflexivity.
Qed.

Lemma spec_mmul (A B : pmat) :
  Spec.mmul c n (map4 (modp n) A) (map4 (modp n) B) = map4 (modp n) (pmm c A B).
Proof.
  destruct A as [[a00 a01] [a10 a11]], B as [[b00 b01] [b10 b11]].
  unfold Spec.mmul, pmm, map4. rewrite !spec_dot. reflexivity.
Qed.

Lemma spec_mvec (A : pmat) (B : pvec) :
  Spec.mvec c n (map4 (modp n) A) (map2 (modp n) B) = map2 (modp n) (pmv c A B).
Proof.
  destruct A as [[a00 a01] [a10 a11]], B as [b0 b1].
  unfold Spec.mvec, pmv, map4, map2. cbn [fst snd]. rewrite !spec_dot. reflexivity.
Qed.

Lemma spec_mpow (A : pmat) (k : nat) :
  Spec.mpow c n (map4 (modp n) A) k = map4 (modp n) (power (pmm c) pid A k).
Proof.
  unfold Spec.mpow. induction k as [| k IH]; simpl.
  - reflexivity.
  - rewrite IH. apply spec_mmul.
Qed.

Lemma spec_companion :
  Spec.companion n (modp n (1, 1)) = map4 (modp n) companion_exact.
Proof.
  unfold Spec.companion, companion_exact, map4. split_pairs; try reflexivity.
  change (modp n (2 * (1 mod n), 2 * (1 mod n)) = modp n (2, 2)).
  apply modp_peq. unfold peq; cbn [fst snd].
  split; rewrite !Zmod_eqm; reflexivity.
Qed.

(** The test of the specification, on exact arithmetic. *)
Lemma spec_lucas_test :
  Spec.lucas_test n c
  = Spec.eqb (modp n (snd (pmv c (power (pmm c) pid companion_exact (Z.to_nat n))
                             ((1, 1), (1, 0)))))
             (1 mod n, (-1) mod n).
Proof.
  unfold Spec.lucas_test.
  change (1 mod n, 1 mod n) with (modp n (1, 1)).
  rewrite spec_companion, spec_mpow.
  change (modp n (1, 1), Spec.of_int n 1) with (map2 (modp n) ((1, 1), (1, 0))).
  rewrite spec_mvec. reflexivity.
Qed.

Hypothesis n_nonzero : n <> 0.

Lemma xmat_field :
  xmat n (red c n (1, 1)) = Ok (map4 (red c n) companion_exact).
Proof.
  unfold xmat. rewrite red_as_raw, (py_add_raw c n n_nonzero). cbn [bind].
  unfold const_like, raw. cbn [qc qn]. rewrite !init_ok by assumption. cbn [bind].
  unfold companion_exact, map4. f_equal. split_pairs; try reflexivity.
  apply red_peq. unfold padd, modp, peq; cbn [fst snd].
  split; rewrite !Zmod_eqm; reflexivity.
Qed.

End SpecFacts.

(* ================================================================== *)
(** * The search for a non-residue                                     *)
(* ================================================================== *)

Section NonResidue.

Variable kronecker_symbol : Z -> Z -> Z.
Variable nextprime : Z -> Z.

(** More fuel does not change a result. *)
Lemma oddprime_loop_mono (fuel : nat) :
  forall (p n r : Z) (fuel' : nat),
    (fuel <= fuel')%nat ->
    oddprime_loop kronecker_symbol nextprime fuel p n = Ok r ->
    oddprime_loop kronecker_symbol nextprime fuel' p n = Ok r.
Proof.
  induction fuel as [| fuel IH]; intros p n r fuel' Hle H; simpl in H.
  - discriminate.
  - destruct fuel' as [| fuel']; [lia |]. simpl.
    destruct (kronecker_symbol p n =? -1); [assumption |].
    apply IH; [lia | assumption].
Qed.

(** The loop has one exit: whatever it returns has Kronecker symbol [-1]
    relative to [n]. *)
Lemma oddprime_loop_symbol (fuel : nat) :
  forall (p n c : Z),
    oddprime_loop kronecker_symbol nextprime fuel p n = Ok c ->
    kronecker_symbol c n = -1.
Proof.
  induction fuel as [| fuel IH]; intros p n c H; cbn [oddprime_loop] in H.
  - discriminate.
  - destruct (Z.eqb_spec (kronecker_symbol p n) (-1)) as [E | NE].
    + inversion H; subst c. exact E.
    + apply (IH _ _ _ H).
Qed.

(** The scan from an odd prime [p] below [q], when no odd prime below [p]
    qualifies and [q] does: it stops on the least odd prime that qualifies. *)
Lemma oddprime_loop_scan (n q : Z) (k : nat) :
  Z.prime q -> kronecker_symbol q n = -1 ->
  (forall p, Z.prime p -> 3 <= p < q -> least_prime_above p (nextprime p)) ->
  forall p,
    Z.prime p -> 3 <= p <= q -> q - p <= Z.of_nat k ->
    (forall r, Z.prime r -> 3 <= r < p -> kronecker_symbol r n <> -1) ->
    exists p0,
      oddprime_loop kronecker_symbol nextprime (S k) p n = Ok p0 /\
      Z.prime p0 /\ 3 <= p0 <= q /\ kronecker_symbol p0 n = -1 /\
      (forall r, Z.prime r -> 3 <= r < p0 -> kronecker_symbol r n <> -1).
Proof.
  intros Hq Hkq Hnext.
  induction k as [| k IH]; intros p Hp Hpq Hk Hbelow.
  - assert (p = q) by lia. subst p.
    exists q. split.
    { cbn [oddprime_loop]. rewrite Hkq. reflexivity. }
    split; [assumption |]. split; [lia |]. split; assumption.
  - cbn [oddprime_loop].
    destruct (Z.eqb_spec (kronecker_symbol p n) (-1)) as [E | NE].
    + exists p. split; [reflexivity |]. split; [assumption |]. split; [lia |].
      split; [exact E | assumption].
    + assert (Hlt : p < q).
      { destruct (Z.eq_dec p q) as [-> | ]; [contradiction | lia]. }
      destruct (Hnext p Hp ltac:(lia)) as (Hp' & Hgt & Hleast).
      pose proof (Hleast q Hq Hlt) as Hle.
      apply IH; try assumption; try lia.
      intros r Hr Hr3.
      destruct (Z.lt_trichotomy r p) as [Hrp | [-> | Hrp]].
      * apply Hbelow; [assumption | lia].
      * assumption.
      * pose proof (Hleast r Hr Hrp). lia.
Qed.

(** C5. If some odd prime [q] has Kronecker symbol [-1] relative to [n],
    then [oddprime n], scanning [3, nextprime 3, ...], returns, with enough
    fuel, the smallest odd prime [p] such that [(p | n) = -1]; [nextprime]
    is only required to return the next prime on the primes below [q]. *)
Theorem oddprime_smallest_nonresidue (n q : Z) :
  Z.prime q -> 3 <= q -> kronecker_symbol q n = -1 ->
  (forall p, Z.prime p -> 3 <= p < q -> least_prime_above p (nextprime p)) ->
  exists p fuel,
    (forall fuel', (fuel <= fuel')%nat ->
       oddprime kronecker_symbol nextprime fuel' n = Ok p) /\
    Z.prime p /\ 3 <= p /\ kronecker_symbol p n = -1 /\
    (forall r, Z.prime r -> 3 <= r -> kronecker_symbol r n = -1 -> p <= r).
Proof.
  intros Hq Hq3 Hkq Hnext.
  destruct (oddprime_loop_scan n q (Z.to_nat (q - 3)) Hq Hkq Hnext 3)
    as (p0 & Hrun & Hp0 & Hrange & Hk0 & Hbelow).
  - exact Z.prime_3.
  - lia.
  - lia.
  - intros r _ Hr. lia.
  - exists p0, (S (Z.to_nat (q - 3))).
    split; [| split; [| split; [| split]]].
    + intros fuel' Hle. unfold oddprime.
      apply (oddprime_loop_mono _ _ _ _ _ Hle Hrun).
    + assumption.
    + lia.
    + assumption.
    + intros r Hr Hr3 Hkr.
      destruct (Z.le_gt_cases p0 r) as [H | H]; [assumption |].
      exfalso. apply (Hbelow r Hr); [lia | assumption].
Qed.

End NonResidue.

(** ** The test itself *)

Lemma const_like_red (c n : Z) (x : Z * Z) (k : Z) :
  n <> 0 -> const_like (red c n x) k = Ok (red c n (k, 0)).
Proof.
  intros Hn. unfold const_like, red. cbn [qc qn fst snd].
  rewrite init_ok by assumption. reflexivity.
Qed.

Section PrimalityTest.

Variable kronecker_symbol : Z -> Z -> Z.
Variable nextprime : Z -> Z.

Lemma myisprime_field (fuel : nat) (n c : Z) :
  n <> 0 ->
  myisprime kronecker_symbol nextprime fuel n (red c n (1, 1))
  = Ok (Spec.lucas_test n c).
Proof.
  intros Hn. unfold myisprime.
  rewrite (xmat_field c n Hn). cbn [bind].
  rewrite (mat_pow_red c n Hn). cbn [bind].
  rewrite (const_like_red c n _ _ Hn). cbn [bind].
  change (red c n (1, 1), red c n (1, 0))
    with (map2 (red c n) ((1, 1), (1, 0))).
  rewrite (mat_mul_vec_red c n _ _ Hn). cbn [bind].
  change (match red c n (1, 1) with
          | Int _ => oddprime kronecker_symbol nextprime fuel n
          | Field q => Ok (qc q)
          end) with (@Ok Z c).
  cbn [bind]. rewrite init_ok by assumption. cbn [bind].
  rewrite spec_lucas_test. f_equal.
  unfold map2, red, py_eq, __eq__, Spec.eqb, modp. cbn [fst snd qu qv qc qn].
  rewrite !Z.eqb_refl, !andb_true_r. reflexivity.
Qed.

(** C1. [is_prime] follows the algorithm: [false] below [2], [true] at
    [2], [false] on the other even numbers and on perfect squares; on every
    other [n], with [c] the non-residue that [oddprime] finds, the verdict
    is whether the second component of [M(a)^n . (a, 1)] equals
    [1 - sqrt c], for [a = 1 + sqrt c] and [M(a) = [[2a, -1], [1, 0]]] in
    the arithmetic modulo [n].  The [c] of the test is a non-residue:
    whatever the search returns has Kronecker symbol [-1] relative to [n];
    and when some odd prime has symbol [-1] (and [nextprime] steps through
    the primes below it), the search ends, with enough fuel, on the least
    odd prime of symbol [-1], and the verdict is the test at that [c]. *)
Theorem is_prime_follows_algorithm (fuel : nat) (n : Z) :
  (n < 2 -> is_prime kronecker_symbol nextprime fuel n = Ok false) /\
  (n = 2 -> is_prime kronecker_symbol nextprime fuel n = Ok true) /\
  (2 < n -> n mod 2 = 0 -> is_prime kronecker_symbol nextprime fuel n = Ok false) /\
  ((exists k, n = k * k) -> is_prime kronecker_symbol nextprime fuel n = Ok false) /\
  (2 < n -> n mod 2 <> 0 -> ~ (exists k, n = k * k) ->
   is_prime kronecker_symbol nextprime fuel n
   = (c <- oddprime kronecker_symbol nextprime fuel n ;; Ok (Spec.lucas_test n c))) /\
  (2 < n -> n mod 2 <> 0 -> ~ (exists k, n = k * k) ->
   forall c, oddprime kronecker_symbol nextprime fuel n = Ok c ->
     kronecker_symbol c n = -1 /\
     is_prime kronecker_symbol nextprime fuel n = Ok (Spec.lucas_test n c)) /\
  (2 < n -> n mod 2 <> 0 -> ~ (exists k, n = k * k) ->
   forall q, Z.prime q -> 3 <= q -> kronecker_symbol q n = -1 ->
   (forall p, Z.prime p -> 3 <= p < q -> least_prime_above p (nextprime p)) ->
   exists c enough,
     Z.prime c /\ 3 <= c /\ kronecker_symbol c n = -1 /\
     (forall r, Z.prime r -> 3 <= r -> kronecker_symbol r n = -1 -> c <= r) /\
     forall fuel', (enough <= fuel')%nat ->
       oddprime kronecker_symbol nextprime fuel' n = Ok c /\
       is_prime kronecker_symbol nextprime fuel' n = Ok (Spec.lucas_test n c)).
Proof.
  assert (Htest : forall fuel0, 2 < n -> n mod 2 <> 0 -> ~ (exists k, n = k * k) ->
            is_prime kronecker_symbol nextprime fuel0 n
            = (c <- oddprime kronecker_symbol nextprime fuel0 n ;;
               Ok (Spec.lucas_test n c))).
  { intros fuel0 H2 Hodd Hns. unfold is_prime.
    destruct (Z.ltb_spec n 2); [lia |].
    destruct (Z.eqb_spec n 2); [lia |].
    destruct (Z.eqb_spec (n mod 2) 0); [contradiction |].
    destruct (is_square n) eqn:Hsq; [apply is_square_spec in Hsq; contradiction |].
    destruct (oddprime kronecker_symbol nextprime fuel0 n) as [c | e | ]; cbn [bind];
      try reflexivity.
    rewrite init_ok by lia. cbn [bind].
    apply (myisprime_field fuel0 n c). lia. }
  unfold is_prime. split; [| split; [| split; [| split; [| split; [| split]]]]].
  - intros H. destruct (Z.ltb_spec n 2); [reflexivity | lia].
  - intros ->. reflexivity.
  - intros H2 He.
    destruct (Z.ltb_spec n 2); [lia |].
    destruct (Z.eqb_spec n 2); [lia |].
    rewrite He. reflexivity.
  - intros Hsq. apply is_square_spec in Hsq.
    destruct (Z.ltb_spec n 2); [reflexivity |].
    destruct (Z.eqb_spec n 2) as [-> | _]; [discriminate Hsq |].
    destruct (n mod 2 =? 0); [reflexivity |].
    rewrite Hsq. reflexivity.
  - intros H2 Hodd Hns. fold (is_prime kronecker_symbol nextprime fuel n).
    apply Htest; assumption.
  - intros H2 Hodd Hns c Hc. fold (is_prime kronecker_symbol nextprime fuel n).
    split.
    + apply (oddprime_loop_symbol kronecker_symbol nextprime fuel 3 n c Hc).
    + rewrite (Htest fuel H2 Hodd Hns), Hc. reflexivity.
  - intros H2 Hodd Hns q Hq Hq3 Hkq Hnext.
    destruct (oddprime_loop_scan kronecker_symbol nextprime n q (Z.to_nat (q - 3))
                Hq Hkq Hnext 3 Z.prime_3)
      as (c & Hrun & Hpc & Hrange & Hkc & Hbelow);
      [lia | lia | intros r _ Hr; lia |].
    exists c, (S (Z.to_nat (q - 3))).
    split; [exact Hpc |]. split; [lia |]. split; [exact Hkc |].
    split.
    { intros r Hr Hr3 Hkr.
      destruct (Z.le_gt_cases c r) as [H | H]; [assumption |].
      exfalso. apply (Hbelow r Hr); [lia | assumption]. }
    intros fuel' Hle.
    assert (Hc : oddprime kronecker_symbol nextprime fuel' n = Ok c)
      by (apply (oddprime_loop_mono kronecker_symbol nextprime _ _ _ _ _ Hle Hrun)).
    split; [exact Hc |].
    fold (is_prime kronecker_symbol nextprime fuel' n).
    rewrite (Htest fuel' H2 Hodd Hns), Hc. reflexivity.
Qed.

End PrimalityTest.


(** The sample instance: trial division is sound. *)
Lemma no_divisor_from_sound (fuel : nat) :
  forall d p, 0 < d -> p - d <= Z.of_nat fuel ->
    no_divisor_from fuel d p = true ->
    forall m, d <= m < p -> ~ (m | p).
Proof.
  induction fuel as [| fuel IH]; intros d p Hd Hfuel H m Hm.
  - lia.
  - cbn [no_divisor_from] in H.
    destruct (Z.leb_spec p d) as [Hpd | Hpd]; [lia |].
    destruct (Z.eqb_spec (p mod d) 0) as [E | NE]; [discriminate |].
    destruct (Z.eq_dec m d) as [-> | Hne].
    + intros Hdiv. apply NE. apply Z.mod_divide; [lia | assumption].
    + apply (IH (d + 1) p); try assumption; lia.
Qed.

Lemma trial_prime_sound (p : Z) : trial_prime p = true -> Z.prime p.
Proof.
  unfold trial_prime. rewrite andb_true_iff, Z.leb_le. intros [H2 H].
  split; [lia |]. intros m Hm.
  apply (no_divisor_from_sound (Z.to_nat p) 2 p); try assumption; lia.
Qed.

Lemma least_prime_above_3 : least_prime_above 3 (next_prime 3).
Proof.
  change (next_prime 3) with 5. split; [| split].
  - apply trial_prime_sound. reflexivity.
  - lia.
  - intros r [_ Hr] Hlt.
    destruct (Z.eq_dec r 4) as [-> | Hne]; [| lia].
    exfalso. apply (Hr 2); [lia |]. exists 2. reflexivity.
Qed.

Lemma oddprime_smallest_nonresidue_witness :
  Z.prime 5 /\ jacobi_symbol 5 13 = -1 /\
  exists p fuel,
    (forall fuel', (fuel <= fuel')%nat -> oddprime jacobi_symbol next_prime fuel' 13 = Ok p) /\
    Z.prime p /\ 3 <= p /\ jacobi_symbol p 13 = -1 /\
    (forall r, Z.prime r -> 3 <= r -> jacobi_symbol r 13 = -1 -> p <= r).
Proof.
  assert (H5 : Z.prime 5) by (apply trial_prime_sound; reflexivity).
  assert (Hk : jacobi_symbol 5 13 = -1) by reflexivity.
  assert (Hnext : forall p, Z.prime p -> 3 <= p < 5 ->
                            least_prime_above p (next_prime p)).
  { intros p [_ Hp] Hr.
    destruct (Z.eq_dec p 3) as [-> | Hne]; [apply least_prime_above_3 |].
    assert (p = 4) by lia. subst p.
    exfalso. apply (Hp 2); [lia |]. exists 2. reflexivity. }
  split; [exact H5 |]. split; [exact Hk |].
  apply (oddprime_smallest_nonresidue jacobi_symbol next_prime 13 5 H5); [lia | exact Hk | exact Hnext].
Defined.

(** On the primes below [5] the sample [next_prime] returns the next prime. *)
Lemma next_prime_below_5 (p : Z) :
  Z.prime p -> 3 <= p < 5 -> least_prime_above p (next_prime p).
Proof.
  intros [_ Hp] Hr.
  destruct (Z.eq_dec p 3) as [-> | Hne]; [apply least_prime_above_3 |].
  assert (p = 4) by lia. subst p.
  exfalso. apply (Hp 2); [lia |]. exists 2. reflexivity.
Qed.

Lemma is_prime_follows_algorithm_witness :
  2 < 13 /\ 13 mod 2 <> 0 /\ ~ (exists k, 13 = k * k) /\
  oddprime jacobi_symbol next_prime 2 13 = Ok 5 /\
  jacobi_symbol 3 13 <> -1 /\
  jacobi_symbol 5 13 = -1 /\
  is_prime jacobi_symbol next_prime 2 13 = Ok (Spec.lucas_test 13 5) /\
  (exists c enough,
     Z.prime c /\ 3 <= c /\ jacobi_symbol c 13 = -1 /\
     (forall r, Z.prime r -> 3 <= r -> jacobi_symbol r 13 = -1 -> c <= r) /\
     forall fuel', (enough <= fuel')%nat ->
       oddprime jacobi_symbol next_prime fuel' 13 = Ok c /\
       is_prime jacobi_symbol next_prime fuel' 13 = Ok (Spec.lucas_test 13 c)) /\
  is_prime jacobi_symbol next_prime 1 7 = Ok (Spec.lucas_test 7 3) /\
  is_prime jacobi_symbol next_prime 1 0 = Ok false /\
  is_prime jacobi_symbol next_prime 1 9 = Ok false.
Proof.
  assert (H13 : 2 < 13) by lia.
  assert (Hodd13 : 13 mod 2 <> 0) by (vm_compute; discriminate).
  assert (Hns13 : ~ (exists k, 13 = k * k))
    by (intros H; apply is_square_spec in H; discriminate H).
  assert (Hc13 : oddprime jacobi_symbol next_prime 2 13 = Ok 5) by reflexivity.
  assert (H5 : Z.prime 5) by (apply trial_prime_sound; reflexivity).
  assert (H35 : 3 <= 5) by lia.
  assert (Hk5 : jacobi_symbol 5 13 = -1) by reflexivity.
  assert (H2 : 2 < 7) by lia.
  assert (Hodd : 7 mod 2 <> 0) by (vm_compute; discriminate).
  assert (Hns : ~ (exists k, 7 = k * k))
    by (intros H; apply is_square_spec in H; discriminate H).
  destruct (is_prime_follows_algorithm jacobi_symbol next_prime 2 13)
    as (_ & _ & _ & _ & _ & Hfound & Hleast).
  destruct (is_prime_follows_algorithm jacobi_symbol next_prime 1 7)
    as (_ & _ & _ & _ & H7 & _).
  destruct (is_prime_follows_algorithm jacobi_symbol next_prime 1 0)
    as (H0 & _).
  destruct (is_prime_follows_algorithm jacobi_symbol next_prime 1 9)
    as (_ & _ & _ & H9 & _).
  split; [exact H13 |]. split; [exact Hodd13 |]. split; [exact Hns13 |].
  split; [exact Hc13 |].
  split; [vm_compute; discriminate |].
  split; [exact (proj1 (Hfound H13 Hodd13 Hns13 5 Hc13)) |].
  split; [exact (proj2 (Hfound H13 Hodd13 Hns13 5 Hc13)) |].
  split; [exact (Hleast H13 Hodd13 Hns13 5 H5 H35 Hk5 next_prime_below_5) |].
  split; [rewrite (H7 H2 Hodd Hns); reflexivity |].
  split; [apply H0; lia | apply H9; exists 3; reflexivity].
Defined.

(* ================================================================== *)
(** * The expression evaluator                                         *)
(* ================================================================== *)

Section EvaluatorFacts.

Variable libm_pow : float -> float -> float.
Variable float_arith : operator -> value -> value -> outcome value.
Variable float_unary : unaryop -> value -> outcome value.
Variable ast_parse : string -> outcome AST.






(** C7. [/] and [//] are bound to the same function, floor division: the
    two operators give the same outcome on all operands, and on integer
    operands [l] and [r <> 0] that outcome is the floor of [l / r]; the text
    [7//2], parsed as the host parser does, evaluates to [3]. *)
Theorem div_and_floordiv_are_floor_division :
  (exists f, _binops libm_pow float_arith Div = Some f /\
             _binops libm_pow float_arith FloorDiv = Some f) /\
  (forall lhs rhs,
     _evaluate libm_pow float_arith float_unary (BinOp lhs Div rhs)
     = _evaluate libm_pow float_arith float_unary (BinOp lhs FloorDiv rhs)) /\
  (forall lhs rhs l r,
     _evaluate libm_pow float_arith float_unary lhs = Ok (VInt l) ->
     _evaluate libm_pow float_arith float_unary rhs = Ok (VInt r) ->
     r <> 0 ->
     _evaluate libm_pow float_arith float_unary (BinOp lhs Div rhs) = Ok (VInt (l / r)) /\
     _evaluate libm_pow float_arith float_unary (BinOp lhs FloorDiv rhs) = Ok (VInt (l / r)) /\
     floor_of l r (l / r)) /\
  (ast_parse "7//2"
   = Ok (Expression (BinOp (Constant (CInt 7)) FloorDiv (Constant (CInt 2)))) ->
   index_number libm_pow float_arith float_unary ast_parse "7//2" = Ok (VInt 3)).
Proof.
  split; [| split; [| split]].
  - eexists. split; reflexivity.
  - reflexivity.
  - intros lhs rhs l r Hl Hr Hne.
    assert (Hq : operator_floordiv float_arith (VInt l) (VInt r) = Ok (VInt (l / r))).
    { simpl. destruct (Z.eqb_spec r 0); [contradiction | reflexivity]. }
    split; [| split].
    + simpl. rewrite Hl, Hr. exact Hq.
    + simpl. rewrite Hl, Hr. exact Hq.
    + split; intros Hsign.
      * pose proof (Z.mul_div_le l r Hsign).
        pose proof (Z.mul_succ_div_gt l r Hsign). lia.
      * pose proof (Z.mul_div_ge l r Hsign).
        pose proof (Z.mul_succ_div_lt l r Hsign). lia.
  - intros Hparse. unfold index_number, parse_int_expr. simpl.
    rewrite Hparse. reflexivity.
Qed.

(** C9. The empty text is refused with the handler's own error
    ([ValueError], "Input cannot be empty."), whatever the parser would
    have made of it: the test comes first and [parse_int_expr] is not
    reached; [parse_int_expr] itself passes any text on to the parser. *)
Theorem empty_input_rejected_before_parsing :
  index_number libm_pow float_arith float_unary ast_parse EmptyString
  = Raise (ValueError InputCannotBeEmpty) /\
  (forall text, text <> EmptyString ->
     index_number libm_pow float_arith float_unary ast_parse text
     = parse_int_expr libm_pow float_arith float_unary ast_parse text) /\
  parse_int_expr libm_pow float_arith float_unary ast_parse EmptyString
  = (node <- ast_parse EmptyString ;; _evaluate libm_pow float_arith float_unary node).
Proof.
  repeat apply conj.
  - reflexivity.
  - intros text Hne. unfold index_number.
    destruct (String.eqb_spec text EmptyString); [contradiction | reflexivity].
  - reflexivity.
Qed.

(** Whatever the operands, a negative integer exponent leads to a float,
    or to the errors of the conversion and of a zero base: the evaluator has
    no rejection of its own for it. *)
Lemma negative_exponent_outcomes (x y : Z) :
  y < 0 ->
  operator_pow libm_pow float_arith (VInt x) (VInt y) = int_pow_negative libm_pow x y /\
  (forall r, int_pow_negative libm_pow x y = Ok r -> exists f, r = VFloat f) /\
  (forall e, int_pow_negative libm_pow x y = Raise e ->
             e = OverflowError \/ e = ZeroDivisionError).
Proof.
  intros Hy. split; [| split].
  - simpl. destruct (Z.ltb_spec y 0); [reflexivity | lia].
  - intros r. unfold int_pow_negative, float_of_int.
    destruct (is_infinity _); [discriminate |]. cbn [bind].
    destruct (is_infinity _); [discriminate |]. cbn [bind].
    destruct (x =? 0); [discriminate |].
    intros H. inversion H. eexists. reflexivity.
  - intros e. unfold int_pow_negative, float_of_int.
    destruct (is_infinity _); [intros H; inversion H; auto |]. cbn [bind].
    destruct (is_infinity _); [intros H; inversion H; auto |]. cbn [bind].
    destruct (x =? 0); [intros H; inversion H; auto | discriminate].
Qed.

(** C4 (the code at the failing input). With a negative exponent, [**]
    raises nothing: [2**-1] evaluates to a [float], the one that the C
    library's [pow] returns for [2.0] and [-1.0]. *)
Theorem negative_exponent_yields_float :
  _evaluate libm_pow float_arith float_unary
    (Expression (BinOp (Constant (CInt 2)) Pow (UnaryOp USub (Constant (CInt 1)))))
  = Ok (VFloat (libm_pow 2 (-1))) /\
  index_number libm_pow float_arith float_unary sample_parse "2**-1"
  = Ok (VFloat (libm_pow 2 (-1))).
Proof.
  split; vm_compute; reflexivity.
Qed.

End EvaluatorFacts.



Lemma div_and_floordiv_are_floor_division_witness :
  _evaluate integers_only_pow integers_only_arith integers_only_unary
    (BinOp (UnaryOp USub (Constant (CInt 7))) Div (Constant (CInt 2))) = Ok (VInt (-4)) /\
  floor_of (-7) 2 (-4) /\
  sample_index_number "7//2" = Ok (VInt 3).
Proof.
  destruct (div_and_floordiv_are_floor_division integers_only_pow integers_only_arith
              integers_only_unary sample_parse) as (_ & _ & Hint & Htext).
  destruct (Hint (UnaryOp USub (Constant (CInt 7))) (Constant (CInt 2)) (-7) 2)
    as (Hdiv & _ & Hfloor); [reflexivity | reflexivity | lia |].
  split; [exact Hdiv |]. split; [exact Hfloor |].
  apply Htext. reflexivity.
Defined.

(** ** The sample runs of the specification *)

Example evaluate_samples :
  sample_index_number "5+3" = Ok (VInt 8) /\
  sample_index_number "(5*6)-1" = Ok (VInt 29) /\
  sample_index_number "2^10" = Ok (VInt 1024) /\
  sample_index_number "7//2" = Ok (VInt 3) /\
  sample_index_number "-(-5)" = Ok (VInt 5) /\
  sample_index_number "1/0" = Raise ZeroDivisionError /\
  sample_index_number "1%0" = Raise ZeroDivisionError /\
  sample_index_number "1.5+2" = Raise (ValueError NonIntegerLiteral) /\
  sample_index_number "__import__('os')" = Raise AttributeError.
Proof. repeat split. Qed.

Example is_prime_small_primes :
  forallb (fun n => match is_prime jacobi_symbol next_prime 10 n with
                    | Ok b => b
                    | _ => false
                    end)
    [2; 3; 5; 7; 11; 13; 17; 19; 23; 29; 31; 37; 41; 43; 47; 53; 59; 61; 67; 71;
     73; 79; 83; 89; 97] = true.
Proof. vm_compute. reflexivity. Qed.

Example is_prime_small_composites :
  forallb (fun n => match is_prime jacobi_symbol next_prime 10 n with
                    | Ok b => negb b
                    | _ => false
                    end)
    [0; 1; 4; 6; 8; 9; 15; 21; 25; 49; 100] = true.
Proof. vm_compute. reflexivity. Qed.

Lemma empty_input_rejected_before_parsing_witness :
  sample_index_number "5+3" = sample_parse_int_expr "5+3".
Proof.
  apply (proj1 (proj2 (empty_input_rejected_before_parsing integers_only_pow
                         integers_only_arith integers_only_unary sample_parse))).
  discriminate.
Defined.

(* ================================================================== *)
(** * The algebra of the field elements                                *)
(* ================================================================== *)

Lemma field_raw (c n : Z) (x : elem) : in_field c n x -> x = raw c n (coords x).
Proof.
  destruct x as [k | [u v c' n']]; simpl; [tauto |].
  intros [-> ->]. reflexivity.
Qed.

Lemma py_neg_raw (c n : Z) (x : Z * Z) :
  n <> 0 -> py_neg (raw c n x) = Ok (red c n (pneg x)).
Proof.
  intros Hn. unfold py_neg, raw, __neg__. cbn [qu qv qc qn].
  rewrite init_ok by assumption. reflexivity.
Qed.

Lemma py_sub_raw (c n : Z) (x y : Z * Z) :
  n <> 0 -> py_sub (raw c n x) (raw c n y) = Ok (red c n (psub x y)).
Proof.
  intros Hn. unfold py_sub, raw, __sub__, __neg__, coerce. cbn [qu qv qc qn bind].
  rewrite init_ok by assumption. cbn [bind].
  unfold __add__, coerce. cbn [qu qv qc qn bind].
  rewrite !Z.eqb_refl. cbn [andb]. rewrite init_ok by assumption. cbn [bind].
  apply f_equal. apply (red_peq c n (fst x + - fst y mod n, snd x + - snd y mod n)).
  unfold psub, peq; cbn [fst snd]. split; rewrite !Zmod_eqm; reflexivity.
Qed.

(** X1. Addition and multiplication of two field elements are
    commutative, errors included: both orders raise the same exception
    when the operands do not share [c] and [n]. *)
Theorem qfe_add_mul_commutative (a b : qfe) :
  __add__ a (Field b) = __add__ b (Field a) /\
  __mul__ a (Field b) = __mul__ b (Field a).
Proof.
  destruct a as [ua va ca na], b as [ub vb cb nb].
  unfold __add__, __mul__, coerce. cbn [qu qv qc qn bind].
  rewrite (Z.eqb_sym cb ca), (Z.eqb_sym nb na).
  destruct (Z.eqb_spec ca cb) as [-> | Hc]; [| split; reflexivity].
  destruct (Z.eqb_spec na nb) as [-> | Hn]; [| split; reflexivity].
  cbn [andb]. split.
  - rewrite (Z.add_comm ua ub), (Z.add_comm va vb). reflexivity.
  - destruct (nb =? 0); [reflexivity |].
    replace (ub * ua + vb * va * cb) with (ua * ub + va * vb * cb) by ring.
    replace (ub * va + vb * ua) with (ua * vb + va * ub) by ring.
    reflexivity.
Qed.

(** Congruences between polynomial expressions with inner reductions. *)
Ltac eqm_ring :=
  let z := fresh "z" in
  let Hz := fresh "Hz" in
  remember 0 as z eqn:Hz;
  repeat setoid_rewrite Zmod_eqm;
  subst z;
  match goal with
  | |- eqm ?N ?l ?r => apply (f_equal (fun t => t mod N)); ring
  end.

Ltac peq_ring :=
  unfold pdot, padd, pmul, pneg, psub, modp, peq; cbn [fst snd];
  split; eqm_ring.

Section FieldLaws.

Variables c n : Z.
Hypothesis n_nonzero : n <> 0.
Variables x y z : elem.
Hypothesis x_in : in_field c n x.
Hypothesis y_in : in_field c n y.
Hypothesis z_in : in_field c n z.

Lemma add_assoc_raw :
  (s <- py_add x y ;; py_add s z) = (t <- py_add y z ;; py_add x t).
Proof.
  rewrite (field_raw c n x x_in), (field_raw c n y y_in), (field_raw c n z z_in).
  rewrite !(py_add_raw c n n_nonzero). cbn [bind].
  rewrite !red_as_raw, !(py_add_raw c n n_nonzero).
  apply f_equal, red_peq. peq_ring.
Qed.

Lemma mul_assoc_raw :
  (s <- py_mul x y ;; py_mul s z) = (t <- py_mul y z ;; py_mul x t).
Proof.
  rewrite (field_raw c n x x_in), (field_raw c n y y_in), (field_raw c n z z_in).
  rewrite !(py_mul_raw c n n_nonzero). cbn [bind].
  rewrite !red_as_raw, !(py_mul_raw c n n_nonzero).
  apply f_equal, red_peq. peq_ring.
Qed.

Lemma mul_add_distr_raw :
  (s <- py_add y z ;; py_mul x s)
  = (p <- py_mul x y ;; q <- py_mul x z ;; py_add p q).
Proof.
  rewrite (field_raw c n x x_in), (field_raw c n y y_in), (field_raw c n z z_in).
  rewrite !(py_add_raw c n n_nonzero), !(py_mul_raw c n n_nonzero). cbn [bind].
  rewrite !red_as_raw, (py_add_raw c n n_nonzero), (py_mul_raw c n n_nonzero).
  apply f_equal, red_peq. peq_ring.
Qed.

Lemma add_mul_distr_raw :
  (s <- py_add x y ;; py_mul s z)
  = (p <- py_mul x z ;; q <- py_mul y z ;; py_add p q).
Proof.
  rewrite (field_raw c n x x_in), (field_raw c n y y_in), (field_raw c n z z_in).
  rewrite !(py_add_raw c n n_nonzero), !(py_mul_raw c n n_nonzero). cbn [bind].
  rewrite !red_as_raw, (py_add_raw c n n_nonzero), (py_mul_raw c n n_nonzero).
  apply f_equal, red_peq. peq_ring.
Qed.

End FieldLaws.

(** X2. Within one field (same [c], same non-zero [n]), addition and
    multiplication are associative: both groupings return the same
    element. *)
Theorem qfe_add_mul_associative (c n : Z) (x y z : elem) :
  n <> 0 -> in_field c n x -> in_field c n y -> in_field c n z ->
  (s <- py_add x y ;; py_add s z) = (t <- py_add y z ;; py_add x t) /\
  (s <- py_mul x y ;; py_mul s z) = (t <- py_mul y z ;; py_mul x t) /\
  exists r, (s <- py_mul x y ;; py_mul s z) = Ok r /\ in_field c n r.
Proof.
  intros Hn Hx Hy Hz. split; [| split].
  - apply (add_assoc_raw c n Hn x y z Hx Hy Hz).
  - apply (mul_assoc_raw c n Hn x y z Hx Hy Hz).
  - rewrite (field_raw c n x Hx), (field_raw c n y Hy), (field_raw c n z Hz).
    rewrite (py_mul_raw c n Hn). cbn [bind].
    rewrite red_as_raw, (py_mul_raw c n Hn).
    eexists. split; [reflexivity |]. simpl. auto.
Qed.

Lemma qfe_add_mul_associative_witness :
  7 <> 0 /\
  (s <- py_mul (Field (mkQFE 1 1 3 7)) (Field (mkQFE 2 5 3 7)) ;;
   py_mul s (Field (mkQFE 6 4 3 7)))
  = (t <- py_mul (Field (mkQFE 2 5 3 7)) (Field (mkQFE 6 4 3 7)) ;;
     py_mul (Field (mkQFE 1 1 3 7)) t).
Proof.
  assert (Hn : 7 <> 0) by lia.
  split; [exact Hn |].
  apply (qfe_add_mul_associative 3 7 (Field (mkQFE 1 1 3 7)) (Field (mkQFE 2 5 3 7))
           (Field (mkQFE 6 4 3 7)) Hn); simpl; auto.
Defined.

(** X3. Within one field, multiplication distributes over addition, on
    both sides. *)
Theorem qfe_mul_distributes (c n : Z) (x y z : elem) :
  n <> 0 -> in_field c n x -> in_field c n y -> in_field c n z ->
  (s <- py_add y z ;; py_mul x s)
  = (p <- py_mul x y ;; q <- py_mul x z ;; py_add p q) /\
  (s <- py_add x y ;; py_mul s z)
  = (p <- py_mul x z ;; q <- py_mul y z ;; py_add p q).
Proof.
  intros Hn Hx Hy Hz. split.
  - apply (mul_add_distr_raw c n Hn x y z Hx Hy Hz).
  - apply (add_mul_distr_raw c n Hn x y z Hx Hy Hz).
Qed.

Lemma qfe_mul_distributes_witness :
  7 <> 0 /\
  (s <- py_add (Field (mkQFE 2 5 3 7)) (Field (mkQFE 6 4 3 7)) ;;
   py_mul (Field (mkQFE 1 1 3 7)) s)
  = Ok (Field (mkQFE 0 3 3 7)).
Proof.
  assert (Hn : 7 <> 0) by lia.
  split; [exact Hn |].
  rewrite (proj1 (qfe_mul_distributes 3 7 (Field (mkQFE 1 1 3 7)) (Field (mkQFE 2 5 3 7))
                    (Field (mkQFE 6 4 3 7)) Hn
                    (conj eq_refl eq_refl) (conj eq_refl eq_refl) (conj eq_refl eq_refl))).
  reflexivity.
Defined.

Lemma canonical_raw (c n : Z) (x : elem) :
  in_field c n x -> canonical x -> red c n (coords x) = x.
Proof.
  destruct x as [k | [u v c' n']]; simpl; [tauto |].
  intros [-> ->] (_ & Hu & Hv). unfold red; simpl. rewrite Hu, Hv. reflexivity.
Qed.

Lemma canonical_shape (c n : Z) (x : elem) :
  in_field c n x -> canonical x ->
  exists a, x = raw c n a /\ red c n a = raw c n a.
Proof.
  intros Hx Hcan. exists (coords x).
  rewrite <- (field_raw c n x Hx). split; [reflexivity |].
  apply canonical_raw; assumption.
Qed.

(** X4. Negation gives the additive inverse and subtraction undoes
    addition: in one field, [x + (-x)] and [x - x] are the zero element, and
    on an element as the constructor leaves it, [-(-x)] and [(x - y) + y]
    give [x] back. *)
Theorem qfe_negation_inverse (c n : Z) (x y : elem) :
  n <> 0 -> in_field c n x -> in_field c n y -> canonical x ->
  (m <- py_neg x ;; py_add x m) = Ok (field_zero c n) /\
  py_sub x x = Ok (field_zero c n) /\
  (m <- py_neg x ;; py_neg m) = Ok x /\
  (d <- py_sub x y ;; py_add d y) = Ok x.
Proof.
  intros Hn Hx Hy Hcan.
  destruct (canonical_shape c n x Hx Hcan) as (a & -> & Hred).
  rewrite (field_raw c n y Hy). set (b := coords y).
  split; [| split; [| split]].
  - rewrite (py_neg_raw c n _ Hn). cbn [bind].
    rewrite red_as_raw, (py_add_raw c n Hn).
    apply f_equal. change (field_zero c n) with (red c n (0, 0)).
    apply red_peq. peq_ring.
  - rewrite (py_sub_raw c n _ _ Hn).
    apply f_equal. change (field_zero c n) with (red c n (0, 0)).
    apply red_peq. peq_ring.
  - rewrite (py_neg_raw c n _ Hn). cbn [bind].
    rewrite red_as_raw, (py_neg_raw c n _ Hn).
    apply f_equal. rewrite <- Hred. apply red_peq. peq_ring.
  - rewrite (py_sub_raw c n _ _ Hn). cbn [bind].
    rewrite red_as_raw, (py_add_raw c n Hn).
    apply f_equal. rewrite <- Hred. apply red_peq. peq_ring.
Qed.

Lemma qfe_negation_inverse_witness :
  7 <> 0 /\
  (d <- py_sub (Field (mkQFE 1 1 3 7)) (Field (mkQFE 6 4 3 7)) ;;
   py_add d (Field (mkQFE 6 4 3 7))) = Ok (Field (mkQFE 1 1 3 7)).
Proof.
  assert (Hn : 7 <> 0) by lia.
  split; [exact Hn |].
  apply (qfe_negation_inverse 3 7 (Field (mkQFE 1 1 3 7)) (Field (mkQFE 6 4 3 7)) Hn);
    simpl; auto.
Defined.

(** X5. Zero and one are neutral: on an element [x] as the constructor
    leaves it, [x + 0], [x * 1] and [1 * x] return [x] and [x * 0] returns
    zero, whether [0] and [1] are field elements or plain integers. *)
Theorem qfe_neutral_elements (c n : Z) (x : elem) :
  n <> 0 -> in_field c n x -> canonical x ->
  py_add x (field_zero c n) = Ok x /\
  py_mul x (field_one c n) = Ok x /\
  py_mul x (field_zero c n) = Ok (field_zero c n) /\
  py_add x (Int 0) = Ok x /\
  py_mul x (Int 1) = Ok x /\
  py_mul (Int 1) x = Ok x.
Proof.
  intros Hn Hx Hcan.
  destruct (canonical_shape c n x Hx Hcan) as (a & -> & Hred).
  assert (Hlift : forall k, coerce (mkQFE (fst a) (snd a) c n) (Int k)
                            = Ok (mkQFE (k mod n) 0 c n)).
  { intros k. unfold coerce. cbn [qc qn]. rewrite init_ok by assumption. reflexivity. }
  change (field_zero c n) with (raw c n (modp n (0, 0))).
  change (field_one c n) with (raw c n (modp n (1, 0))).
  repeat apply conj.
  - rewrite (py_add_raw c n Hn). apply f_equal.
    rewrite <- Hred. apply red_peq. peq_ring.
  - rewrite (py_mul_raw c n Hn). apply f_equal.
    rewrite <- Hred. apply red_peq. peq_ring.
  - rewrite (py_mul_raw c n Hn). apply f_equal.
    change (raw c n (modp n (0, 0))) with (red c n (0, 0)). apply red_peq. peq_ring.
  - transitivity (py_add (raw c n a) (raw c n (modp n (0, 0)))).
    + unfold py_add, raw, __add__. rewrite Hlift. reflexivity.
    + rewrite (py_add_raw c n Hn). apply f_equal.
      rewrite <- Hred. apply red_peq. peq_ring.
  - transitivity (py_mul (raw c n a) (raw c n (modp n (1, 0)))).
    + unfold py_mul, raw, __mul__. rewrite Hlift. reflexivity.
    + rewrite (py_mul_raw c n Hn). apply f_equal.
      rewrite <- Hred. apply red_peq. peq_ring.
  - unfold py_mul, raw, __rmul__. cbn [qu qv qc qn].
    rewrite init_ok by assumption. cbn [bind]. apply f_equal.
    rewrite !Z.mul_1_r. exact Hred.
Qed.

Lemma qfe_neutral_elements_witness :
  7 <> 0 /\ py_mul (Field (mkQFE 5 6 3 7)) (Int 1) = Ok (Field (mkQFE 5 6 3 7)).
Proof.
  assert (Hn : 7 <> 0) by lia.
  split; [exact Hn |].
  apply (qfe_neutral_elements 3 7 (Field (mkQFE 5 6 3 7)) Hn); simpl; auto.
Defined.

(** X6. [sqrtc(c, n)] is a square root of [c]: its square is the field
    element [(c, 0)], and it is the element [(0, 1)] that [1 + sqrt c] and
    [1 - sqrt c] are built around: their product is [1 - c]. *)
Theorem sqrtc_squares_to_c (c n : Z) :
  n <> 0 ->
  (s <- sqrtc c n ;; py_mul s s) = Ok (lift c n c) /\
  (s <- sqrtc c n ;; p <- py_add s (Int 1) ;; m <- py_neg s ;; q <- py_add m (Int 1) ;;
   py_mul p q) = Ok (lift c n (1 - c)).
Proof.
  intros Hn.
  assert (Hs : sqrtc c n = Ok (raw c n (modp n (0, 1)))).
  { unfold sqrtc. rewrite init_ok by assumption. reflexivity. }
  assert (Hone : forall a, py_add (raw c n a) (Int 1) = Ok (red c n (padd a (1 mod n, 0)))).
  { intros a. unfold py_add, raw, __add__, coerce. cbn [qu qv qc qn].
    rewrite init_ok by assumption. cbn [bind qu qv qc qn].
    rewrite !Z.eqb_refl. cbn [andb]. rewrite init_ok by assumption. reflexivity. }
  rewrite Hs. cbn [bind]. split.
  - rewrite (py_mul_raw c n Hn). apply f_equal.
    rewrite lift_red. apply red_peq. peq_ring.
  - rewrite Hone. cbn [bind]. rewrite (py_neg_raw c n _ Hn). cbn [bind].
    rewrite (red_as_raw c n (pneg _)), Hone. cbn [bind].
    rewrite !red_as_raw, (py_mul_raw c n Hn). apply f_equal.
    rewrite lift_red. apply red_peq. peq_ring.
Qed.

Lemma sqrtc_squares_to_c_witness :
  7 <> 0 /\ (s <- sqrtc 3 7 ;; py_mul s s) = Ok (Field (mkQFE 3 0 3 7)).
Proof.
  assert (Hn : 7 <> 0) by lia.
  split; [exact Hn |].
  exact (proj1 (sqrtc_squares_to_c 3 7 Hn)).
Defined.

(** X7. A plain integer as right operand is lifted to [(k, 0)]: [x + k],
    [x - k] and [x * k] are what they are on the lifted [k], and [k * x]
    (through [__rmul__]) equals [x * k]; as left operand of [+] or [-] an
    integer is refused with [TypeError]. *)
Theorem qfe_mixed_operands (c n : Z) (x : elem) (k : Z) :
  n <> 0 -> in_field c n x ->
  py_add x (Int k) = py_add x (lift c n k) /\
  py_sub x (Int k) = py_sub x (lift c n k) /\
  py_mul x (Int k) = py_mul x (lift c n k) /\
  py_mul (Int k) x = py_mul x (Int k) /\
  (exists r, py_mul (Int k) x = Ok r /\ in_field c n r) /\
  py_add (Int k) x = Raise TypeError /\
  py_sub (Int k) x = Raise TypeError.
Proof.
  intros Hn Hx. rewrite (field_raw c n x Hx). set (a := coords x).
  assert (Hlift : coerce (mkQFE (fst a) (snd a) c n) (Int k)
                  = Ok (mkQFE (k mod n) 0 c n)).
  { unfold coerce. cbn [qc qn]. rewrite init_ok by assumption. reflexivity. }
  assert (Hmul : py_mul (raw c n a) (Int k) = py_mul (raw c n a) (lift c n k)).
  { unfold py_mul, raw, lift, __mul__. rewrite Hlift. reflexivity. }
  assert (Hrmul : py_mul (Int k) (raw c n a) = Ok (red c n (fst a * k, snd a * k))).
  { unfold py_mul, raw, __rmul__. cbn [qu qv qc qn].
    rewrite init_ok by assumption. reflexivity. }
  repeat apply conj; try reflexivity.
  - unfold py_add, raw, lift, __add__. rewrite Hlift. reflexivity.
  - unfold py_sub, raw, lift, __sub__. rewrite Hlift. reflexivity.
  - exact Hmul.
  - rewrite Hmul, Hrmul, lift_red, (red_as_raw c n (k, 0)), (py_mul_raw c n Hn).
    apply f_equal, red_peq. peq_ring.
  - rewrite Hrmul. eexists. split; [reflexivity |]. simpl. auto.
Qed.

Lemma qfe_mixed_operands_witness :
  7 <> 0 /\
  py_mul (Int 10) (Field (mkQFE 1 1 3 7)) = py_mul (Field (mkQFE 1 1 3 7)) (Int 10).
Proof.
  assert (Hn : 7 <> 0) by lia.
  split; [exact Hn |].
  apply (qfe_mixed_operands 3 7 (Field (mkQFE 1 1 3 7)) 10 Hn). simpl. auto.
Defined.

(** X8. Elements of different fields are never combined: when the
    operands differ in [c] or in [n], [__add__], [__sub__] and [__mul__]
    raise [AssertionError], and [__eq__] answers [False]. *)
Theorem qfe_mismatch_refused (a b : qfe) :
  qn b <> 0 -> qc a <> qc b \/ qn a <> qn b ->
  __add__ a (Field b) = Raise AssertionError /\
  __sub__ a (Field b) = Raise AssertionError /\
  __mul__ a (Field b) = Raise AssertionError /\
  __eq__ a (Field b) = false.
Proof.
  intros Hnb Hdiff.
  assert (Hsame : (qc a =? qc b) && (qn a =? qn b) = false).
  { apply andb_false_iff. destruct Hdiff as [H | H]; [left | right];
      apply Z.eqb_neq; assumption. }
  repeat apply conj.
  - unfold __add__, coerce. cbn [bind]. rewrite Hsame. reflexivity.
  - unfold __sub__, __neg__, coerce. cbn [bind].
    rewrite init_ok by assumption. cbn [bind].
    unfold __add__, coerce. cbn [bind qc qn]. rewrite Hsame. reflexivity.
  - unfold __mul__, coerce. cbn [bind]. rewrite Hsame. reflexivity.
  - unfold __eq__. rewrite <- andb_assoc, Hsame. apply andb_false_r.
Qed.

Lemma qfe_mismatch_refused_witness :
  7 <> 0 /\ __mul__ (mkQFE 1 1 3 7) (Field (mkQFE 1 1 5 7)) = Raise AssertionError.
Proof.
  assert (Hn : qn (mkQFE 1 1 5 7) <> 0) by (simpl; lia).
  split; [exact Hn |].
  apply (qfe_mismatch_refused (mkQFE 1 1 3 7) (mkQFE 1 1 5 7) Hn).
  left. simpl. lia.
Defined.

(** X9. [==] is structural equality of [(u, v, c, n)]: two field elements
    compare equal exactly when all four attributes agree, and a field
    element never equals a plain integer, on either side. *)
Theorem qfe_eq_structural (a b : qfe) (k : Z) :
  (__eq__ a (Field b) = true <-> a = b) /\
  py_eq (Field a) (Field b) = py_eq (Field b) (Field a) /\
  py_eq (Field a) (Int k) = false /\
  py_eq (Int k) (Field a) = false.
Proof.
  destruct a as [ua va ca na], b as [ub vb cb nb].
  repeat apply conj; try reflexivity.
  - unfold __eq__. cbn [qu qv qc qn].
    rewrite !andb_true_iff, !Z.eqb_eq. intros (((-> & ->) & ->) & ->). reflexivity.
  - intros H. inversion H; subst. unfold __eq__. cbn [qu qv qc qn].
    rewrite !Z.eqb_refl. reflexivity.
  - unfold py_eq, __eq__. cbn [qu qv qc qn].
    rewrite (Z.eqb_sym ub ua), (Z.eqb_sym vb va), (Z.eqb_sym cb ca), (Z.eqb_sym nb na).
    reflexivity.
Qed.

(* ================================================================== *)
(** * The algebra of the matrix engine                                 *)
(* ================================================================== *)

Lemma power_mul {X : Type} (mul : X -> X -> X) (one : X) :
  (forall a b c, mul a (mul b c) = mul (mul a b) c) ->
  (forall a, mul one a = a) ->
  forall (A : X) (j k : nat),
    power mul one (power mul one A j) k = power mul one A (j * k).
Proof.
  intros Hassoc Hone A j k. induction k as [| k IH]; simpl.
  - rewrite Nat.mul_0_r. reflexivity.
  - rewrite IH, <- (power_add mul one Hassoc Hone).
    f_equal. lia.
Qed.

Lemma imv_imm (A B : imat) (V : Z * Z) : imv (imm A B) V = imv A (imv B V).
Proof.
  destruct A as [[a00 a01] [a10 a11]], B as [[b00 b01] [b10 b11]], V as [v0 v1].
  unfold imv, imm. split_pairs; ring.
Qed.

Lemma pmv_pmm (c : Z) (A B : pmat) (V : pvec) :
  pmv c (pmm c A B) V = pmv c A (pmv c B V).
Proof.
  destruct A as [[[a1 a2] [a3 a4]] [[a5 a6] [a7 a8]]],
           B as [[[b1 b2] [b3 b4]] [[b5 b6] [b7 b8]]],
           V as [[v1 v2] [v3 v4]].
  unfold pmv, pmm, pdot, padd, pmul; cbn [fst snd]. split_pairs; ring.
Qed.

Lemma ints_vec_shape (V : vector) :
  is_int (fst V) -> is_int (snd V) ->
  V = map2 Int (map2 (fun x => fst (coords x)) V).
Proof.
  destruct V as [[a | a] [b | b]]; simpl; intros H K; try tauto.
Qed.

Lemma field_vec_shape (c n : Z) (V : vector) :
  in_field c n (fst V) -> in_field c n (snd V) ->
  V = map2 (raw c n) (map2 coords V).
Proof.
  destruct V as [a b]. cbn [fst snd]. intros Ha Hb.
  unfold map2; cbn [fst snd].
  rewrite <- (field_raw c n a Ha), <- (field_raw c n b Hb). reflexivity.
Qed.

Section FieldProducts.

Variables c n : Z.
Hypothesis n_nonzero : n <> 0.

Lemma mat_mul_red_raw (A B : pmat) :
  mat_mul (map4 (red c n) A) (map4 (raw c n) B) = Ok (map4 (red c n) (pmm c A B)).
Proof.
  rewrite (red_is_raw c n A).
  apply (mat_mul_raw c n n_nonzero); [apply (red_modp c n) | reflexivity].
Qed.

Lemma mat_mul_raw_raw (A B : pmat) :
  mat_mul (map4 (raw c n) A) (map4 (raw c n) B) = Ok (map4 (red c n) (pmm c A B)).
Proof. apply (mat_mul_raw c n n_nonzero); reflexivity. Qed.

Lemma mat_mul_vec_raw (A : pmat) (V : pvec) :
  mat_mul_vec (map4 (raw c n) A) (map2 (raw c n) V) = Ok (map2 (red c n) (pmv c A V)).
Proof.
  destruct A as [[a00 a01] [a10 a11]], V as [v0 v1].
  unfold mat_mul_vec, map4, map2. cbn [fst snd].
  rewrite !(dot2_raw c n n_nonzero). reflexivity.
Qed.

Lemma mat_mul_vec_raw_red (A : pmat) (V : pvec) :
  mat_mul_vec (map4 (raw c n) A) (map2 (red c n) V) = Ok (map2 (red c n) (pmv c A V)).
Proof.
  destruct A as [[a00 a01] [a10 a11]], V as [v0 v1].
  unfold mat_mul_vec, map4, map2. cbn [fst snd].
  rewrite !red_as_raw, !(dot2_raw c n n_nonzero). cbn [bind]. unfold pmv.
  f_equal. split_pairs; apply red_peq; apply pdot_peq;
    first [apply peq_modp | apply peq_refl].
Qed.

Lemma mat_mul_vec_red_raw (A : pmat) (V : pvec) :
  mat_mul_vec (map4 (red c n) A) (map2 (raw c n) V) = Ok (map2 (red c n) (pmv c A V)).
Proof.
  destruct A as [[a00 a01] [a10 a11]], V as [v0 v1].
  unfold mat_mul_vec, map4, map2. cbn [fst snd].
  rewrite !red_as_raw, !(dot2_raw c n n_nonzero). cbn [bind]. unfold pmv.
  f_equal. split_pairs; apply red_peq; apply pdot_peq;
    first [apply peq_modp | apply peq_refl].
Qed.

End FieldProducts.

(** X10. On matrices of one type and parameters, [mat_mul] is
    associative: [(A B) C] and [A (B C)] are the same matrix, of that type
    again. *)
Theorem mat_mul_associative (P : ring_params) (A B C : matrix) :
  uniform P A -> uniform P B -> uniform P C ->
  (AB <- mat_mul A B ;; mat_mul AB C) = (BC <- mat_mul B C ;; mat_mul A BC) /\
  exists R, (AB <- mat_mul A B ;; mat_mul AB C) = Ok R /\ uniform P R.
Proof.
  destruct P as [| c n]; intros HA HB HC.
  - rewrite (ints_shape A HA), (ints_shape B HB), (ints_shape C HC).
    rewrite !mat_mul_ints. cbn [bind]. rewrite !mat_mul_ints, imm_assoc.
    split; [reflexivity |]. eexists. split; [reflexivity | apply uniform_ints].
  - destruct HA as [Hn HA], HB as [_ HB], HC as [_ HC].
    rewrite (field_shape c n A HA), (field_shape c n B HB), (field_shape c n C HC).
    rewrite !(mat_mul_raw_raw c n Hn). cbn [bind].
    rewrite (mat_mul_red_raw c n Hn), (mat_mul_raw_red c n Hn), pmm_assoc.
    split; [reflexivity |].
    eexists. split; [reflexivity | apply uniform_red; assumption].
Qed.

Lemma mat_mul_associative_witness :
  uniform (FieldRing 3 7) companion_3_7 /\
  (AB <- mat_mul companion_3_7 companion_3_7 ;; mat_mul AB companion_3_7)
  = (BC <- mat_mul companion_3_7 companion_3_7 ;; mat_mul companion_3_7 BC).
Proof.
  assert (HM : uniform (FieldRing 3 7) companion_3_7).
  { split; [lia |]. unfold all_entries; simpl. tauto. }
  split; [exact HM |].
  exact (proj1 (mat_mul_associative (FieldRing 3 7) companion_3_7 companion_3_7
                  companion_3_7 HM HM HM)).
Defined.

(** X11. The two branches of [mat_mul] agree: applying a product of
    matrices to a vector is applying the factors one after the other,
    [(A B) v = A (B v)]. *)
Theorem mat_mul_vec_composes (P : ring_params) (A B : matrix) (V : vector) :
  uniform P A -> uniform P B -> uniform_vec P V ->
  (AB <- mat_mul A B ;; mat_mul_vec AB V) = (W <- mat_mul_vec B V ;; mat_mul_vec A W) /\
  exists R, (AB <- mat_mul A B ;; mat_mul_vec AB V) = Ok R /\ uniform_vec P R.
Proof.
  destruct P as [| c n]; intros HA HB HV.
  - destruct HV as [HV0 HV1].
    rewrite (ints_shape A HA), (ints_shape B HB), (ints_vec_shape V HV0 HV1).
    rewrite mat_mul_ints, mat_mul_vec_ints. cbn [bind].
    rewrite !mat_mul_vec_ints, imv_imm.
    split; [reflexivity |]. eexists. split; [reflexivity |]. simpl. auto.
  - destruct HA as [Hn HA], HB as [_ HB], HV as (_ & HV0 & HV1).
    rewrite (field_shape c n A HA), (field_shape c n B HB),
      (field_vec_shape c n V HV0 HV1).
    rewrite (mat_mul_raw_raw c n Hn), (mat_mul_vec_raw c n Hn). cbn [bind].
    rewrite (mat_mul_vec_red_raw c n Hn), (mat_mul_vec_raw_red c n Hn), pmv_pmm.
    split; [reflexivity |].
    eexists. split; [reflexivity |]. simpl. auto.
Qed.

Lemma mat_mul_vec_composes_witness :
  uniform (FieldRing 3 7) companion_3_7 /\
  (AB <- mat_mul companion_3_7 companion_3_7 ;;
   mat_mul_vec AB (Field (mkQFE 1 1 3 7), Field (mkQFE 1 0 3 7)))
  = (W <- mat_mul_vec companion_3_7 (Field (mkQFE 1 1 3 7), Field (mkQFE 1 0 3 7)) ;;
     mat_mul_vec companion_3_7 W).
Proof.
  assert (HM : uniform (FieldRing 3 7) companion_3_7).
  { split; [lia |]. unfold all_entries; simpl. tauto. }
  assert (HV : uniform_vec (FieldRing 3 7) (Field (mkQFE 1 1 3 7), Field (mkQFE 1 0 3 7))).
  { split; [lia |]. simpl. auto. }
  split; [exact HM |].
  exact (proj1 (mat_mul_vec_composes (FieldRing 3 7) companion_3_7 companion_3_7 _
                  HM HM HV)).
Defined.

(** X12. The laws of exponents hold for [mat_pow] on matrices of one
    type: [M^a M^b = M^(a+b)], the powers of one matrix commute, and
    [(M^a)^b = M^(a b)]. *)
Theorem mat_pow_exponent_laws (P : ring_params) (M : matrix) (a b : Z) :
  uniform P M -> 0 <= a -> 0 <= b ->
  (X <- mat_pow M a ;; Y <- mat_pow M b ;; mat_mul X Y) = mat_pow M (a + b) /\
  (X <- mat_pow M a ;; Y <- mat_pow M b ;; mat_mul X Y)
  = (X <- mat_pow M a ;; Y <- mat_pow M b ;; mat_mul Y X) /\
  (X <- mat_pow M a ;; mat_pow X b) = mat_pow M (a * b).
Proof.
  intros HM Ha Hb.
  assert (Hab : Z.to_nat (a + b) = (Z.to_nat a + Z.to_nat b)%nat) by lia.
  assert (Hba : (Z.to_nat a + Z.to_nat b)%nat = (Z.to_nat b + Z.to_nat a)%nat) by lia.
  assert (Hmul : Z.to_nat (a * b) = (Z.to_nat a * Z.to_nat b)%nat)
    by (apply Z2Nat.inj_mul; assumption).
  destruct P as [| c n].
  - rewrite (ints_shape M HM). rewrite !mat_pow_ints. cbn [bind].
    rewrite !mat_mul_ints, mat_pow_ints, Hab, Hmul.
    rewrite <- !(power_add imm iid imm_assoc imm_iid_l), <- Hba.
    rewrite (power_mul imm iid imm_assoc imm_iid_l). repeat split.
  - destruct HM as [Hn HM]. rewrite (field_shape c n M HM).
    rewrite !(mat_pow_field c n Hn). cbn [bind].
    rewrite !(mat_mul_red c n Hn), (mat_pow_red c n Hn), Hab, Hmul.
    rewrite <- !(power_add (pmm c) pid (pmm_assoc c) (pmm_pid_l c)), <- Hba.
    rewrite (power_mul (pmm c) pid (pmm_assoc c) (pmm_pid_l c)). repeat split.
Qed.

Lemma mat_pow_exponent_laws_witness :
  uniform (FieldRing 3 7) companion_3_7 /\ 0 <= 3 /\ 0 <= 4 /\
  (X <- mat_pow companion_3_7 3 ;; Y <- mat_pow companion_3_7 4 ;; mat_mul X Y)
  = mat_pow companion_3_7 (3 + 4).
Proof.
  assert (HM : uniform (FieldRing 3 7) companion_3_7).
  { split; [lia |]. unfold all_entries; simpl. tauto. }
  assert (H3 : 0 <= 3) by lia.
  assert (H4 : 0 <= 4) by lia.
  split; [exact HM |]. split; [exact H3 |]. split; [exact H4 |].
  exact (proj1 (mat_pow_exponent_laws (FieldRing 3 7) companion_3_7 3 4 HM H3 H4)).
Defined.

(** X13. [mat_pow] has no inverse powers: with a zero or negative
    exponent the loop body never runs, and the result is the start value of
    the accumulator, the identity, for every matrix whatsoever. *)
Theorem mat_pow_nonpositive_exponent (M : matrix) (e : Z) :
  e <= 0 ->
  mat_pow M e = mat_pow_init M /\ mat_pow M e = mat_pow M 0.
Proof.
  intros He.
  assert (H : forall e', e' <= 0 -> mat_pow M e' = mat_pow_init M).
  { intros e' He'. unfold mat_pow.
    destruct (mat_pow_init M) as [R | x |]; cbn [bind]; try reflexivity.
    unfold bit_length. cbn [mat_pow_loop].
    destruct (Z.ltb_spec 0 e'); [lia | reflexivity]. }
  split; [apply H; assumption |].
  rewrite (H e He), (H 0); [reflexivity | lia].
Qed.

Lemma mat_pow_nonpositive_exponent_witness :
  -5 <= 0 /\ mat_pow companion_3_7 (-5) = Ok (field_identity 3 7).
Proof.
  assert (He : -5 <= 0) by lia.
  split; [exact He |].
  rewrite (proj1 (mat_pow_nonpositive_exponent companion_3_7 (-5) He)). reflexivity.
Defined.

Lemma red_reduced_in (c n : Z) (x : Z * Z) : 0 < n -> reduced_in c n (red c n x).
Proof.
  intros Hn. unfold reduced_in, red. cbn [qc qn].
  split; [reflexivity |]. split; [reflexivity |]. apply mk_reduced. assumption.
Qed.

Lemma map4_red_reduced (c n : Z) (A : pmat) :
  0 < n -> all_entries (reduced_in c n) (map4 (red c n) A).
Proof.
  intros Hn. destruct A as [[a00 a01] [a10 a11]].
  unfold all_entries, map4; cbn [fst snd].
  repeat split; apply red_reduced_in; assumption.
Qed.

(** X14. The matrix engine keeps the invariant of the elements: on
    field matrices with a positive modulus, every entry that [mat_mul] (both
    branches) and [mat_pow] return has its components in [[0, n)], even
    when the entries of the operands were not reduced. *)
Theorem matrix_engine_keeps_reduced (c n : Z) (A B : matrix) (V : vector) (e : Z) :
  0 < n ->
  all_entries (in_field c n) A -> all_entries (in_field c n) B ->
  in_field c n (fst V) -> in_field c n (snd V) ->
  (exists R, mat_mul A B = Ok R /\ all_entries (reduced_in c n) R) /\
  (exists W, mat_mul_vec A V = Ok W /\
             reduced_in c n (fst W) /\ reduced_in c n (snd W)) /\
  (exists R, mat_pow A e = Ok R /\ all_entries (reduced_in c n) R).
Proof.
  intros Hpos HA HB HV0 HV1.
  assert (Hn : n <> 0) by lia.
  rewrite (field_shape c n A HA), (field_shape c n B HB),
    (field_vec_shape c n V HV0 HV1).
  split; [| split].
  - rewrite (mat_mul_raw_raw c n Hn).
    eexists. split; [reflexivity | apply map4_red_reduced; assumption].
  - rewrite (mat_mul_vec_raw c n Hn).
    eexists. split; [reflexivity |].
    unfold map2; cbn [fst snd]. split; apply red_reduced_in; assumption.
  - rewrite (mat_pow_field c n Hn).
    eexists. split; [reflexivity | apply map4_red_reduced; assumption].
Qed.

Lemma matrix_engine_keeps_reduced_witness :
  0 < 7 /\
  exists R,
    mat_pow ((Field (mkQFE 9 (-5) 3 7), Field (mkQFE 6 0 3 7)),
             (Field (mkQFE 1 0 3 7), Field (mkQFE 0 0 3 7))) 5 = Ok R /\
    all_entries (reduced_in 3 7) R.
Proof.
  assert (Hn : 0 < 7) by lia.
  split; [exact Hn |].
  refine (proj2 (proj2 (matrix_engine_keeps_reduced 3 7
            ((Field (mkQFE 9 (-5) 3 7), Field (mkQFE 6 0 3 7)),
             (Field (mkQFE 1 0 3 7), Field (mkQFE 0 0 3 7)))
            companion_3_7 (Field (mkQFE 1 1 3 7), Field (mkQFE 1 0 3 7)) 5 Hn _ _ _ _)));
    unfold all_entries; simpl; auto.
Defined.

(* ================================================================== *)
(** * More on the search and on the test                               *)
(* ================================================================== *)

Section SearchFacts.

Variable kronecker_symbol : Z -> Z -> Z.
Variable nextprime : Z -> Z.

(** The loop from [p0] returns the first element of the orbit
    [p0, nextprime p0, ...] whose symbol is [-1], if the fuel reaches it. *)
Lemma oddprime_loop_first (n : Z) (fuel : nat) :
  forall p0 p,
    oddprime_loop kronecker_symbol nextprime fuel p0 n = Ok p <->
    exists k, (k < fuel)%nat /\ p = Nat.iter k nextprime p0 /\
              kronecker_symbol p n = -1 /\
              forall j, (j < k)%nat ->
                        kronecker_symbol (Nat.iter j nextprime p0) n <> -1.
Proof.
  induction fuel as [| fuel IH]; intros p0 p; cbn [oddprime_loop].
  - split; [discriminate |]. intros (k & Hk & _). lia.
  - destruct (Z.eqb_spec (kronecker_symbol p0 n) (-1)) as [E | NE].
    + split.
      * intros H. inversion H; subst p. exists O.
        split; [lia |]. split; [reflexivity |]. split; [assumption |].
        intros j Hj. lia.
      * intros (k & _ & Hp & _ & Hfirst). destruct k as [| k].
        -- simpl in Hp. subst p. reflexivity.
        -- exfalso. apply (Hfirst O); [lia | exact E].
    + rewrite IH. split.
      * intros (k & Hk & Hp & Hsym & Hfirst). exists (S k).
        split; [lia |]. rewrite Nat.iter_succ_r.
        split; [assumption |]. split; [assumption |].
        intros j Hj. destruct j as [| j]; [exact NE |].
        rewrite Nat.iter_succ_r. apply Hfirst. lia.
      * intros (k & Hk & Hp & Hsym & Hfirst). destruct k as [| k].
        -- simpl in Hp. subst p. contradiction.
        -- exists k. split; [lia |]. rewrite Nat.iter_succ_r in Hp.
           split; [assumption |]. split; [assumption |].
           intros j Hj. specialize (Hfirst (S j) ltac:(lia)).
           rewrite Nat.iter_succ_r in Hfirst. exact Hfirst.
Qed.

Lemma oddprime_loop_never_raises (n : Z) (fuel : nat) :
  forall p0 e, oddprime_loop kronecker_symbol nextprime fuel p0 n <> Raise e.
Proof.
  induction fuel as [| fuel IH]; intros p0 e; cbn [oddprime_loop].
  - discriminate.
  - destruct (kronecker_symbol p0 n =? -1); [discriminate | apply IH].
Qed.

(** X15. Whatever [nextprime] returns, [oddprime(n)] is the first of
    [3, nextprime(3), nextprime(nextprime(3)), ...] whose Kronecker symbol
    relative to [n] is [-1]: a returned [p] has symbol [-1], every candidate
    before it has not, and [oddprime] raises nothing. *)
Theorem oddprime_first_candidate (fuel : nat) (n p : Z) :
  (oddprime kronecker_symbol nextprime fuel n = Ok p <->
   exists k, (k < fuel)%nat /\ p = Nat.iter k nextprime 3 /\
             kronecker_symbol p n = -1 /\
             forall j, (j < k)%nat ->
                       kronecker_symbol (Nat.iter j nextprime 3) n <> -1) /\
  (forall e, oddprime kronecker_symbol nextprime fuel n <> Raise e).
Proof.
  split.
  - apply oddprime_loop_first.
  - intros e. apply oddprime_loop_never_raises.
Qed.

(** X16. The search has no bound of its own: when no candidate of the
    scan has symbol [-1] (as when the symbol is never [-1] at all), it
    outlasts every amount of fuel, and so does [is_prime] on an odd
    non-square [n > 2]. *)
Theorem oddprime_unbounded_search (n : Z) :
  (forall k, kronecker_symbol (Nat.iter k nextprime 3) n <> -1) ->
  (forall fuel, oddprime kronecker_symbol nextprime fuel n = OutOfFuel) /\
  (2 < n -> n mod 2 <> 0 -> is_square n = false ->
   forall fuel, is_prime kronecker_symbol nextprime fuel n = OutOfFuel).
Proof.
  intros Hnone.
  assert (Hloop : forall fuel, oddprime kronecker_symbol nextprime fuel n = OutOfFuel).
  { intros fuel.
    destruct (oddprime kronecker_symbol nextprime fuel n) as [p | e |] eqn:H.
    - apply oddprime_loop_first in H. destruct H as (k & _ & -> & Hsym & _).
      exfalso. apply (Hnone k). exact Hsym.
    - exfalso. apply (oddprime_loop_never_raises n fuel 3 e). exact H.
    - reflexivity. }
  split; [exact Hloop |].
  intros H2 Hodd Hsq fuel. unfold is_prime.
  destruct (Z.ltb_spec n 2); [lia |].
  destruct (Z.eqb_spec n 2); [lia |].
  destruct (Z.eqb_spec (n mod 2) 0); [contradiction |].
  rewrite Hsq, Hloop. reflexivity.
Qed.

End SearchFacts.

Lemma oddprime_unbounded_search_witness :
  (forall k, (fun _ _ : Z => 1) (Nat.iter k next_prime 3) 15 <> -1) /\
  forall fuel, is_prime (fun _ _ => 1) next_prime fuel 15 = OutOfFuel.
Proof.
  assert (Hnone : forall k, (fun _ _ : Z => 1) (Nat.iter k next_prime 3) 15 <> -1).
  { intros k. cbv beta. lia. }
  split; [exact Hnone |].
  apply (proj2 (oddprime_unbounded_search (fun _ _ => 1) next_prime 15 Hnone)).
  - lia.
  - vm_compute. discriminate.
  - reflexivity.
Defined.

(** The matrix-vector product of the powers of the companion matrix runs
    through the sequence. *)
Lemma companion_step (c : Z) (a x1 x0 : Z * Z) :
  pmv c (companion_of a) (x1, x0) = (psub (pmul c (padd a a) x1) x0, x1).
Proof.
  destruct a as [a1 a2], x1 as [u1 v1], x0 as [u0 v0].
  unfold pmv, companion_of, pdot, padd, pmul, psub; cbn [fst snd].
  split_pairs; ring.
Qed.

Lemma companion_power_chebyshev (c : Z) (a : Z * Z) (k : nat) :
  pmv c (power (pmm c) pid (companion_of a) k) (a, (1, 0)) = chebyshev_pair c a k.
Proof.
  induction k as [| k IH]; cbn [power chebyshev_pair].
  - destruct a as [a1 a2]. unfold pmv, pid, pdot, padd, pmul; cbn [fst snd].
    split_pairs; ring.
  - rewrite pmv_pmm, IH.
    destruct (chebyshev_pair c a k) as [x1 x0]. apply companion_step.
Qed.

Lemma xmat_raw (c n m : Z) (a : Z * Z) :
  n <> 0 -> xmat m (raw c n a) = Ok (map4 (red c n) (companion_of a)).
Proof.
  intros Hn. unfold xmat. rewrite (py_add_raw c n Hn). cbn [bind].
  unfold const_like, raw. cbn [qc qn]. rewrite !init_ok by assumption. reflexivity.
Qed.

Lemma xmat_ints (m k : Z) :
  xmat m (Int k) = Ok (map4 Int ((k + k, -1), (1, 0))).
Proof. reflexivity. Qed.

Section TestFacts.

Variable kronecker_symbol : Z -> Z -> Z.
Variable nextprime : Z -> Z.

(** The value that [myisprime] compares with the target, for a field
    element [a] of modulus [a.n]: the second component of [M(a)^n (a, 1)]. *)
Lemma myisprime_run (fuel : nat) (c na n : Z) (a : Z * Z) :
  na <> 0 -> n <> 0 ->
  myisprime kronecker_symbol nextprime fuel n (raw c na a)
  = Ok (py_eq (red c na (chebyshev c a (Z.to_nat n)))
              (Field (mkQFE (1 mod n) ((-1) mod n) c n))).
Proof.
  intros Hna Hn. unfold myisprime.
  rewrite (xmat_raw c na n a Hna). cbn [bind].
  rewrite (mat_pow_red c na Hna). cbn [bind].
  assert (Hone : const_like (raw c na a) 1 = Ok (raw c na (modp na (1, 0)))).
  { unfold const_like, raw. cbn [qc qn]. rewrite init_ok by assumption. reflexivity. }
  rewrite Hone. cbn [bind].
  change (raw c na a, raw c na (modp na (1, 0)))
    with (map2 (raw c na) (a, modp na (1, 0))).
  rewrite (mat_mul_vec_red_raw c na Hna). cbn [bind].
  change (match raw c na a with
          | Int _ => oddprime kronecker_symbol nextprime fuel n
          | Field q => Ok (qc q)
          end) with (@Ok Z c).
  cbn [bind]. rewrite init_ok by assumption. cbn [bind].
  apply f_equal. apply (f_equal (fun x => py_eq x _)).
  unfold map2. cbn [snd]. apply red_peq.
  unfold chebyshev. rewrite <- companion_power_chebyshev.
  destruct (power (pmm c) pid (companion_of a) (Z.to_nat n)) as [[p00 p01] [p10 p11]].
  unfold pmv. cbn [snd fst].
  apply pdot_peq; first [apply peq_modp | apply peq_refl].
Qed.

(** X17. With a plain integer for [a], [myisprime] never answers
    [True]: the matrix engine then works on integers, and an integer is not
    equal to the target field element.  The verdict is [False] once the
    search for [c] has ended (and [ZeroDivisionError] for [n = 0]). *)
Theorem myisprime_scalar_is_false (fuel : nat) (n k c : Z) :
  oddprime kronecker_symbol nextprime fuel n = Ok c ->
  (n <> 0 -> myisprime kronecker_symbol nextprime fuel n (Int k) = Ok false) /\
  (n = 0 -> myisprime kronecker_symbol nextprime fuel n (Int k)
            = Raise ZeroDivisionError).
Proof.
  intros Hc.
  assert (Hrun : myisprime kronecker_symbol nextprime fuel n (Int k)
                 = (target <- __init__ 1 (-1) c n ;; Ok false)).
  { unfold myisprime. rewrite xmat_ints. cbn [bind].
    rewrite mat_pow_ints. cbn [bind const_like].
    change (Int k, Int 1) with (map2 Int (k, 1)).
    rewrite mat_mul_vec_ints. cbn [bind]. rewrite Hc. cbn [bind].
    unfold __init__. destruct (n =? 0); reflexivity. }
  rewrite Hrun. split.
  - intros Hn. rewrite init_ok by assumption. reflexivity.
  - intros ->. reflexivity.
Qed.

(** X18. What the test computes: for a field element [a] with the
    modulus [n <> 0], [myisprime(n, a)] holds exactly when the [n]-th term of
    [x0 = 1], [x1 = a], [x(k+2) = 2 a x(k+1) - x(k)], the Chebyshev
    polynomial [T_n] at [a], is congruent to [1 - sqrt c] modulo [n]; an
    element of another modulus always gives [False]; and [is_prime] is this
    test at [a = 1 + sqrt c]. *)
Theorem myisprime_is_chebyshev (fuel : nat) (n : Z) (a : qfe) :
  n <> 0 -> qn a <> 0 ->
  (qn a = n ->
   myisprime kronecker_symbol nextprime fuel n (Field a)
   = Ok (Spec.eqb (modp n (chebyshev (qc a) (qu a, qv a) (Z.to_nat n)))
                  (1 mod n, (-1) mod n))) /\
  (qn a <> n -> myisprime kronecker_symbol nextprime fuel n (Field a) = Ok false) /\
  (2 < n -> n mod 2 <> 0 -> is_square n = false ->
   is_prime kronecker_symbol nextprime fuel n
   = (c <- oddprime kronecker_symbol nextprime fuel n ;;
      Ok (Spec.eqb (modp n (chebyshev c (1, 1) (Z.to_nat n))) (1 mod n, (-1) mod n)))).
Proof.
  intros Hn Hna.
  assert (Hrun : forall c na x, na <> 0 ->
            myisprime kronecker_symbol nextprime fuel n (raw c na x)
            = Ok (py_eq (red c na (chebyshev c x (Z.to_nat n)))
                        (Field (mkQFE (1 mod n) ((-1) mod n) c n)))).
  { intros c na x H. apply myisprime_run; assumption. }
  assert (Heq : forall c x,
            py_eq (red c n x) (Field (mkQFE (1 mod n) ((-1) mod n) c n))
            = Spec.eqb (modp n x) (1 mod n, (-1) mod n)).
  { intros c x. unfold red, py_eq, __eq__, Spec.eqb, modp. cbn [fst snd qu qv qc qn].
    rewrite !Z.eqb_refl, !andb_true_r. reflexivity. }
  destruct a as [u v c na]. cbn [qu qv qc qn] in *.
  change (Field (mkQFE u v c na)) with (raw c na (u, v)).
  split; [| split].
  - intros ->. rewrite (Hrun c n (u, v) Hn), Heq. reflexivity.
  - intros Hdiff. rewrite (Hrun c na (u, v) Hna). apply f_equal.
    unfold red, py_eq, __eq__. cbn [qu qv qc qn].
    destruct (Z.eqb_spec na n); [contradiction |]. apply andb_false_r.
  - intros H2 Hodd Hsq. unfold is_prime.
    destruct (Z.ltb_spec n 2); [lia |].
    destruct (Z.eqb_spec n 2); [lia |].
    destruct (Z.eqb_spec (n mod 2) 0); [contradiction |].
    rewrite Hsq.
    destruct (oddprime kronecker_symbol nextprime fuel n) as [c' | e |]; cbn [bind];
      try reflexivity.
    rewrite init_ok by assumption. cbn [bind].
    change (Field (mkQFE (1 mod n) (1 mod n) c' n)) with (red c' n (1, 1)).
    rewrite (myisprime_field kronecker_symbol nextprime fuel n c' Hn), spec_lucas_test.
    change companion_exact with (companion_of (1, 1)).
    rewrite companion_power_chebyshev. reflexivity.
Qed.

End TestFacts.

Lemma myisprime_scalar_is_false_witness :
  oddprime jacobi_symbol next_prime 1 7 = Ok 3 /\
  myisprime jacobi_symbol next_prime 1 7 (Int 2) = Ok false.
Proof.
  assert (Hc : oddprime jacobi_symbol next_prime 1 7 = Ok 3) by reflexivity.
  split; [exact Hc |].
  apply (proj1 (myisprime_scalar_is_false jacobi_symbol next_prime 1 7 2 3 Hc)). lia.
Defined.

Lemma myisprime_is_chebyshev_witness :
  7 <> 0 /\
  myisprime jacobi_symbol next_prime 1 7 (Field (mkQFE 1 1 3 7))
  = Ok (Spec.eqb (modp 7 (chebyshev 3 (1, 1) 7)) (1, 6)).
Proof.
  assert (Hn : 7 <> 0) by lia.
  split; [exact Hn |].
  exact (proj1 (myisprime_is_chebyshev jacobi_symbol next_prime 1 7 (mkQFE 1 1 3 7) Hn Hn)
           eq_refl).
Defined.

Example chebyshev_values :
  chebyshev 3 (1, 1) 0 = (1, 0) /\ chebyshev 3 (1, 1) 1 = (1, 1) /\
  chebyshev 3 (1, 1) 2 = (7, 4) /\ modp 7 (chebyshev 3 (1, 1) 7) = (1, 6).
Proof. repeat split. Qed.

(** X19. [is_prime] raises nothing: on every integer, with any
    [kronecker_symbol] and [nextprime], its outcome is a verdict, or the
    search for [c] still running; no [ZeroDivisionError] (the modulus is at
    least [3] when elements are built), no [AssertionError] (all elements
    share [c] and [n]), no [TypeError]. *)
Theorem is_prime_never_raises
  (kronecker_symbol : Z -> Z -> Z) (nextprime : Z -> Z) (fuel : nat) (n : Z) :
  (forall e, is_prime kronecker_symbol nextprime fuel n <> Raise e) /\
  (is_prime kronecker_symbol nextprime fuel n = OutOfFuel ->
   2 < n /\ oddprime kronecker_symbol nextprime fuel n = OutOfFuel).
Proof.
  unfold is_prime.
  destruct (Z.ltb_spec n 2); [split; [discriminate | discriminate] |].
  destruct (Z.eqb_spec n 2); [split; [discriminate | discriminate] |].
  destruct (n mod 2 =? 0); [split; [discriminate | discriminate] |].
  destruct (is_square n); [split; [discriminate | discriminate] |].
  destruct (oddprime kronecker_symbol nextprime fuel n) as [c | e |] eqn:Hc; cbn [bind].
  - rewrite init_ok by lia. cbn [bind].
    change (Field (mkQFE (1 mod n) (1 mod n) c n)) with (red c n (1, 1)).
    rewrite (myisprime_field kronecker_symbol nextprime fuel n c) by lia.
    split; discriminate.
  - exfalso. apply (oddprime_loop_never_raises kronecker_symbol nextprime n fuel 3 e).
    exact Hc.
  - split; [discriminate |]. intros _. split; [lia | reflexivity].
Qed.

(* ================================================================== *)
(** * More on the evaluator                                            *)
(* ================================================================== *)




Section MoreEvaluatorFacts.

Variable libm_pow : float -> float -> float.
Variable float_arith : operator -> value -> value -> outcome value.
Variable float_unary : unaryop -> value -> outcome value.
Variable ast_parse : string -> outcome AST.


End MoreEvaluatorFacts.

(** Without [**], the evaluator on an unbounded stack stays within the
    integers: its outcome is an [int] or one of its own errors. *)
Lemma pow_free_integer
  (libm_pow : float -> float -> float)
  (float_arith : operator -> value -> value -> outcome value)
  (float_unary : unaryop -> value -> outcome value) (node : AST) :
  pow_free node = true ->
  (exists z, _evaluate libm_pow float_arith float_unary node = Ok (VInt z)) \/
  (exists e, _evaluate libm_pow float_arith float_unary node = Raise e /\
             evaluator_error e).
Proof.
  unfold evaluator_error.
  induction node as [body IH | value | lhs IHl op rhs IHr | op operand IH
                     | | | | | | | | ]; intros Hfree;
    try (right; eexists; split; [reflexivity | tauto]).
  - cbn [_evaluate]. apply IH. exact Hfree.
  - destruct value; cbn [_evaluate];
      try (left; eexists; reflexivity);
      right; eexists; (split; [reflexivity | tauto]).
  - cbn [pow_free] in Hfree.
    assert (Hsub : pow_free lhs = true /\ pow_free rhs = true /\ op <> Pow).
    { destruct op; try discriminate; apply andb_true_iff in Hfree;
        (split; [tauto | split; [tauto | discriminate]]). }
    destruct Hsub as (Hl & Hr & Hop).
    cbn [_evaluate].
    destruct (_binops libm_pow float_arith op) as [f |] eqn:Hf;
      [| right; eexists; split; [reflexivity | tauto]].
    destruct (IHl Hl) as [[x Hx] | [e [He Herr]]];
      [| right; exists e; rewrite He; split; [reflexivity | exact Herr]].
    destruct (IHr Hr) as [[y Hy] | [e [He Herr]]];
      [| right; exists e; rewrite Hx, He; split; [reflexivity | exact Herr]].
    rewrite Hx, Hy. cbn [bind].
    destruct op; try discriminate Hf; try contradiction;
      inversion Hf; subst f; cbn;
      try (left; eexists; reflexivity);
      (destruct (y =? 0);
       [right; eexists; split; [reflexivity | tauto] | left; eexists; reflexivity]).
  - cbn [pow_free] in Hfree. cbn [_evaluate].
    destruct (_unops float_unary op) as [f |] eqn:Hf;
      [| right; eexists; split; [reflexivity | tauto]].
    destruct (IH Hfree) as [[x Hx] | [e [He Herr]]];
      [| right; exists e; rewrite He; split; [reflexivity | exact Herr]].
    rewrite Hx. cbn [bind].
    destruct op; try discriminate Hf; inversion Hf; subst f; cbn;
      left; eexists; reflexivity.
Qed.

Lemma pow_free_independent
  (pow1 pow2 : float -> float -> float)
  (arith1 arith2 : operator -> value -> value -> outcome value)
  (unary1 unary2 : unaryop -> value -> outcome value) (node : AST) :
  pow_free node = true ->
  _evaluate pow1 arith1 unary1 node = _evaluate pow2 arith2 unary2 node.
Proof.
  induction node as [body IH | value | lhs IHl op rhs IHr | op operand IH
                     | | | | | | | | ]; intros Hfree; try reflexivity.
  - cbn [_evaluate]. apply IH. exact Hfree.
  - cbn [pow_free] in Hfree.
    assert (Hsub : pow_free lhs = true /\ pow_free rhs = true /\ op <> Pow).
    { destruct op; try discriminate; apply andb_true_iff in Hfree;
        (split; [tauto | split; [tauto | discriminate]]). }
    destruct Hsub as (Hl & Hr & Hop).
    cbn [_evaluate]. rewrite <- (IHl Hl), <- (IHr Hr).
    destruct (pow_free_integer pow1 arith1 unary1 lhs Hl) as [[x Hx] | [e [He _]]];
      [| rewrite He; destruct op; reflexivity].
    destruct (pow_free_integer pow1 arith1 unary1 rhs Hr) as [[y Hy] | [e [He _]]];
      [| rewrite Hx, He; destruct op; reflexivity].
    rewrite Hx, Hy. destruct op; try reflexivity. contradiction.
  - cbn [pow_free] in Hfree. cbn [_evaluate]. rewrite <- (IH Hfree).
    destruct (pow_free_integer pow1 arith1 unary1 operand Hfree) as [[x Hx] | [e [He _]]];
      [rewrite Hx | rewrite He]; destruct op; reflexivity.
Qed.

(** X21. Without [**], no float arises: when the evaluation of a tree
    in which the power operator does not occur returns a value, that value
    is an [int]; it never raises [OverflowError], nor the [ValueError]
    "Unsupported AST node" (the rejection of an unknown node class is the
    [AttributeError] of the lookup of [ast.Paren]); and its outcome does not
    depend on the host's floating-point arithmetic. *)
Theorem pow_free_stays_integer
  (pow1 pow2 : float -> float -> float)
  (arith1 arith2 : operator -> value -> value -> outcome value)
  (unary1 unary2 : unaryop -> value -> outcome value) (node : AST) :
  pow_free node = true ->
  (forall v, _evaluate pow1 arith1 unary1 node = Ok v -> exists z, v = VInt z) /\
  _evaluate pow1 arith1 unary1 node <> Raise (ValueError UnsupportedASTNode) /\
  _evaluate pow1 arith1 unary1 node <> Raise OverflowError /\
  _evaluate pow1 arith1 unary1 node = _evaluate pow2 arith2 unary2 node.
Proof.
  intros Hfree.
  pose proof (pow_free_integer pow1 arith1 unary1 node Hfree) as Hint.
  split; [| split; [| split]].
  - intros v Hv. destruct Hint as [[z Hz] | [e [He _]]].
    + exists z. rewrite Hz in Hv. inversion Hv. reflexivity.
    + rewrite He in Hv. discriminate Hv.
  - destruct Hint as [[z Hz] | [e [He Herr]]].
    + rewrite Hz. discriminate.
    + rewrite He. intros H. inversion H; subst e.
      unfold evaluator_error in Herr.
      destruct Herr as [H1 | [H1 | [H1 | [H1 | H1]]]]; discriminate H1.
  - destruct Hint as [[z Hz] | [e [He Herr]]].
    + rewrite Hz. discriminate.
    + rewrite He. intros H. inversion H; subst e.
      unfold evaluator_error in Herr.
      destruct Herr as [H1 | [H1 | [H1 | [H1 | H1]]]]; discriminate H1.
  - apply pow_free_independent. exact Hfree.
Qed.

Lemma pow_free_stays_integer_witness :
  pow_free (BinOp (BinOp (Constant (CInt 5)) Mult (Constant (CInt 6))) Sub
                  (UnaryOp USub (Constant (CInt 1)))) = true /\
  _evaluate integers_only_pow integers_only_arith integers_only_unary
    (BinOp (BinOp (Constant (CInt 5)) Mult (Constant (CInt 6))) Sub
           (UnaryOp USub (Constant (CInt 1)))) = Ok (VInt 31) /\
  exists z, VInt 31 = VInt z.
Proof.
  assert (Hfree : pow_free (BinOp (BinOp (Constant (CInt 5)) Mult (Constant (CInt 6))) Sub
                                  (UnaryOp USub (Constant (CInt 1)))) = true)
    by reflexivity.
  assert (Hrun : _evaluate integers_only_pow integers_only_arith integers_only_unary
                   (BinOp (BinOp (Constant (CInt 5)) Mult (Constant (CInt 6))) Sub
                          (UnaryOp USub (Constant (CInt 1)))) = Ok (VInt 31))
    by reflexivity.
  split; [exact Hfree |]. split; [exact Hrun |].
  exact (proj1 (pow_free_stays_integer integers_only_pow integers_only_pow
                  integers_only_arith integers_only_arith
                  integers_only_unary integers_only_unary _ Hfree) _ Hrun).
Defined.

Section OperatorFacts.

Variable libm_pow : float -> float -> float.
Variable float_arith : operator -> value -> value -> outcome value.
Variable float_unary : unaryop -> value -> outcome value.

(** X22. Division by zero is an error, not a value: when the right
    operand evaluates to the integer [0] (and the left one to an integer),
    [/], [//] and [%] raise [ZeroDivisionError]. *)
Theorem zero_divisor_raises (lhs rhs : AST) (x : Z) :
  _evaluate libm_pow float_arith float_unary lhs = Ok (VInt x) ->
  _evaluate libm_pow float_arith float_unary rhs = Ok (VInt 0) ->
  _evaluate libm_pow float_arith float_unary (BinOp lhs Div rhs) = Raise ZeroDivisionError /\
  _evaluate libm_pow float_arith float_unary (BinOp lhs FloorDiv rhs)
  = Raise ZeroDivisionError /\
  _evaluate libm_pow float_arith float_unary (BinOp lhs Mod rhs) = Raise ZeroDivisionError.
Proof.
  intros Hl Hr. cbn [_evaluate _binops]. rewrite Hl, Hr. repeat split.
Qed.

(** X23. On integer operands the operators are exact integer
    arithmetic: [+], [-], [*] and the unary signs are those of the
    integers, [**] with an exponent [>= 0] is the power, and [//] and [%]
    satisfy [l = r * (l // r) + l % r] with a remainder that has the sign of
    the divisor. *)
Theorem integer_operators_exact (lhs rhs : AST) (l r : Z) :
  _evaluate libm_pow float_arith float_unary lhs = Ok (VInt l) ->
  _evaluate libm_pow float_arith float_unary rhs = Ok (VInt r) ->
  _evaluate libm_pow float_arith float_unary (BinOp lhs Add rhs) = Ok (VInt (l + r)) /\
  _evaluate libm_pow float_arith float_unary (BinOp lhs Sub rhs) = Ok (VInt (l - r)) /\
  _evaluate libm_pow float_arith float_unary (BinOp lhs Mult rhs) = Ok (VInt (l * r)) /\
  _evaluate libm_pow float_arith float_unary (UnaryOp USub lhs) = Ok (VInt (- l)) /\
  _evaluate libm_pow float_arith float_unary (UnaryOp UAdd lhs) = Ok (VInt l) /\
  _evaluate libm_pow float_arith float_unary (UnaryOp USub (UnaryOp USub lhs))
  = Ok (VInt l) /\
  (0 <= r ->
   _evaluate libm_pow float_arith float_unary (BinOp lhs Pow rhs) = Ok (VInt (l ^ r))) /\
  (r <> 0 ->
   exists q m,
     _evaluate libm_pow float_arith float_unary (BinOp lhs FloorDiv rhs) = Ok (VInt q) /\
     _evaluate libm_pow float_arith float_unary (BinOp lhs Mod rhs) = Ok (VInt m) /\
     l = r * q + m /\ (0 < r -> 0 <= m < r) /\ (r < 0 -> r < m <= 0)).
Proof.
  intros Hl Hr.
  repeat apply conj; cbn [_evaluate _binops _unops]; rewrite ?Hl, ?Hr; cbn [bind];
    try reflexivity.
  - cbn. rewrite Z.opp_involutive. reflexivity.
  - intros Hpos. cbn. destruct (Z.ltb_spec r 0); [lia | reflexivity].
  - intros Hne. exists (l / r), (l mod r). cbn.
    destruct (Z.eqb_spec r 0); [contradiction |].
    split; [reflexivity |]. split; [reflexivity |].
    split; [apply Z.div_mod; assumption |].
    split; intros Hsign.
    + apply Z.mod_pos_bound; assumption.
    + apply Z.mod_neg_bound; assumption.
Qed.

End OperatorFacts.

Lemma zero_divisor_raises_witness :
  _evaluate integers_only_pow integers_only_arith integers_only_unary
    (BinOp (Constant (CInt 1)) Mod (BinOp (Constant (CInt 3)) Sub (Constant (CInt 3))))
  = Raise ZeroDivisionError.
Proof.
  apply (zero_divisor_raises integers_only_pow integers_only_arith integers_only_unary
           (Constant (CInt 1)) (BinOp (Constant (CInt 3)) Sub (Constant (CInt 3))) 1);
    reflexivity.
Defined.

Lemma integer_operators_exact_witness :
  0 <= 10 /\
  _evaluate integers_only_pow integers_only_arith integers_only_unary
    (BinOp (Constant (CInt 2)) Pow (Constant (CInt 10))) = Ok (VInt 1024) /\
  exists q m,
    _evaluate integers_only_pow integers_only_arith integers_only_unary
      (BinOp (UnaryOp USub (Constant (CInt 7))) FloorDiv (Constant (CInt 2))) = Ok (VInt q) /\
    _evaluate integers_only_pow integers_only_arith integers_only_unary
      (BinOp (UnaryOp USub (Constant (CInt 7))) Mod (Constant (CInt 2))) = Ok (VInt m) /\
    -7 = 2 * q + m /\ 0 <= m < 2.
Proof.
  destruct (integer_operators_exact integers_only_pow integers_only_arith
              integers_only_unary (UnaryOp USub (Constant (CInt 7))) (Constant (CInt 2))
              (-7) 2 eq_refl eq_refl) as (_ & _ & _ & _ & _ & _ & _ & Hdm).
  destruct (integer_operators_exact integers_only_pow integers_only_arith
              integers_only_unary (Constant (CInt 2)) (Constant (CInt 10))
              2 10 eq_refl eq_refl) as (_ & _ & _ & _ & _ & _ & Hpow & _).
  assert (H10 : 0 <= 10) by lia.
  split; [exact H10 |]. split; [exact (Hpow H10) |].
  destruct (Hdm ltac:(lia)) as (q & m & Hq & Hm & Hid & Hpos & _).
  exists q, m. split; [exact Hq |]. split; [exact Hm |]. split; [exact Hid |].
  apply Hpos. lia.
Defined.

(** X24. A negative exponent is never refused: on integer operands with
    a negative right operand, [**] returns a [float], or raises
    [OverflowError] (an operand too large for a float) or
    [ZeroDivisionError] (base [0]); it returns no [int] and raises none of
    the evaluator's own errors. *)
Theorem negative_exponent_never_refused
  (libm_pow : float -> float -> float)
  (float_arith : operator -> value -> value -> outcome value)
  (float_unary : unaryop -> value -> outcome value)
  (lhs rhs : AST) (x y : Z) :
  _evaluate libm_pow float_arith float_unary lhs = Ok (VInt x) ->
  _evaluate libm_pow float_arith float_unary rhs = Ok (VInt y) ->
  y < 0 ->
  (exists f, _evaluate libm_pow float_arith float_unary (BinOp lhs Pow rhs)
             = Ok (VFloat f)) \/
  _evaluate libm_pow float_arith float_unary (BinOp lhs Pow rhs) = Raise OverflowError \/
  _evaluate libm_pow float_arith float_unary (BinOp lhs Pow rhs) = Raise ZeroDivisionError.
Proof.
  intros Hl Hr Hy. cbn [_evaluate _binops]. rewrite Hl, Hr. cbn [bind].
  unfold operator_pow. destruct (Z.ltb_spec y 0); [| lia].
  unfold int_pow_negative, float_of_int.
  destruct (is_infinity _); [right; left; reflexivity |]. cbn [bind].
  destruct (is_infinity _); [right; left; reflexivity |]. cbn [bind].
  destruct (x =? 0); [right; right; reflexivity |].
  left. eexists. reflexivity.
Qed.

Lemma negative_exponent_never_refused_witness :
  -3 < 0 /\
  ((exists f, _evaluate integers_only_pow integers_only_arith integers_only_unary
                (BinOp (Constant (CInt 0)) Pow (UnaryOp USub (Constant (CInt 3))))
              = Ok (VFloat f)) \/
   _evaluate integers_only_pow integers_only_arith integers_only_unary
     (BinOp (Constant (CInt 0)) Pow (UnaryOp USub (Constant (CInt 3))))
   = Raise OverflowError \/
   _evaluate integers_only_pow integers_only_arith integers_only_unary
     (BinOp (Constant (CInt 0)) Pow (UnaryOp USub (Constant (CInt 3))))
   = Raise ZeroDivisionError).
Proof.
  assert (Hy : -3 < 0) by lia.
  split; [exact Hy |].
  apply (negative_exponent_never_refused integers_only_pow integers_only_arith
           integers_only_unary (Constant (CInt 0)) (UnaryOp USub (Constant (CInt 3)))
           0 (-3) eq_refl eq_refl Hy).
Defined.

